(** * ZBOT: the signal generation pipeline, embedded and verified

    A shallow embedding of the trading-signal pipeline: the parts that
    the specification makes claims about, and the functions around them:

    - [analysis.py]   the indicator engine, the classifier
                      ([generate_signal], [_calculate_signal_precision]),
                      [analyze_symbol] and [analyze_all_futures];
    - [api_client.py] [get_all_futures_symbols], [_process_symbol_data],
                      [get_all_futures_data];
    - [monitoring.py] [CacheManager] ([get], [set], [clear],
                      [clear_expired], [get_stats]), the [cache_result]
                      wrapper, [PerformanceMonitor] and
                      [SystemHealthMonitor];
    - [api_routes.py] the health endpoint [check_system_health];
    - [config.py]     the thresholds of [Config].

    Numbers.  A Python [float] is modelled as an exact rational ([Q]):
    a finite value, computed without rounding.  Comparison of two floats
    is comparison of rationals, and Python's [==] is [Qeq].  Values that
    pandas reports as NaN (a window that is not full, a division by
    zero) are modelled as [None] in an [option Q]. *)

From Stdlib Require Import QArith Qabs Qminmax Qround Lqa ZArith Lia.
From Stdlib Require Import List String Ascii Sorting Permutation Bool.
From stdpp Require Import gmap strings list.

Open Scope Q_scope.

(** ** Floats as rationals *)

(** [x < y] and [x > y] on floats, as booleans. *)
Definition Qltb (x y : Q) : bool := negb (Qle_bool y x).
Definition Qgtb (x y : Q) : bool := Qltb y x.

(** Python's builtin [min(a, b)]: [b] if [b < a], else [a]. *)
Definition py_min (a b : Q) : Q := if Qltb b a then b else a.

(** ** config.py *)

Module Config.
Definition Z_SCORE_THRESHOLD : Q := 2.0.
Definition RSI_OVERSOLD : Q := 30.
Definition RSI_OVERBOUGHT : Q := 70.
Definition LOOKBACK_PERIOD : nat := 50.
Definition VOLUME_SMA_PERIOD : nat := 20.
Definition CACHE_TIMEOUT : Z := 300.
End Config.

(** ** analysis.py: the classifier *)

Inductive direction := BUY | SELL.
Inductive strength := WEAK | MODERATE | STRONG.

(** The dictionary returned by [generate_signal]. *)
Record signal := mkSignal {
  sig_direction : direction;
  sig_strength : strength;
  sig_precision : Q
}.

(** The severity ordering WEAK < MODERATE < STRONG of the specification. *)
Definition strength_rank (s : strength) : nat :=
  match s with WEAK => 0 | MODERATE => 1 | STRONG => 2 end.

Definition strength_le (a b : strength) : Prop :=
  (strength_rank a <= strength_rank b)%nat.

(** [_calculate_signal_precision] *)
Definition calculate_signal_precision
    (z_score rsi macd_histogram volume_ratio : Q) : Q :=
  let precision := 50 in
  let z_score_contribution := py_min (Qabs z_score / 3) 1 * 30 in
  let precision := precision + z_score_contribution in
  let precision :=
    if Qltb rsi 25 || Qgtb rsi 75 then precision + 20
    else if Qltb rsi 30 || Qgtb rsi 70 then precision + 15
    else if Qltb rsi 40 || Qgtb rsi 60 then precision + 10
    else precision in
  let precision :=
    if Qgtb (Qabs macd_histogram) 0.002 then precision + 15
    else if Qgtb (Qabs macd_histogram) 0.001 then precision + 10
    else precision in
  let precision :=
    if Qgtb volume_ratio 1.5 then precision + 15
    else if Qgtb volume_ratio 1.2 then precision + 10
    else precision in
  py_min precision 100.

(** The three precedence rules of [generate_signal] that fix the
    direction; [None] is Python's [signal_direction is None]. *)
Definition signal_direction (z_score rsi macd_histogram : Q)
    : option direction :=
  let d :=
    if Qgtb z_score Config.Z_SCORE_THRESHOLD then Some SELL
    else if Qltb z_score (- Config.Z_SCORE_THRESHOLD) then Some BUY
    else None in
  let d :=
    match d with
    | Some _ => d
    | None =>
        if Qgtb rsi Config.RSI_OVERBOUGHT then Some SELL
        else if Qltb rsi Config.RSI_OVERSOLD then Some BUY
        else None
    end in
  match d with
  | Some _ => d
  | None =>
      if Qltb macd_histogram (-0.001) then Some SELL
      else if Qgtb macd_histogram 0.001 then Some BUY
      else None
  end.

Definition is_sell (d : direction) : bool :=
  match d with SELL => true | BUY => false end.
Definition is_buy (d : direction) : bool :=
  match d with BUY => true | SELL => false end.

(** The strength assignments of [generate_signal], in source order:
    RSI confirmation, MACD confirmation, then the volume step. *)
Definition signal_strength (d : direction)
    (rsi macd_histogram volume_ratio : Q) : strength :=
  let s := WEAK in
  let s :=
    if Qgtb rsi Config.RSI_OVERBOUGHT && is_sell d then STRONG
    else if Qltb rsi Config.RSI_OVERSOLD && is_buy d then STRONG
    else s in
  let s :=
    if Qgtb macd_histogram 0 && is_buy d then STRONG
    else if Qltb macd_histogram 0 && is_sell d then STRONG
    else s in
  if Qgtb volume_ratio 1.5 then
    match s with
    | WEAK => MODERATE
    | MODERATE => STRONG
    | STRONG => STRONG
    end
  else s.

(** [generate_signal] *)
Definition generate_signal
    (z_score rsi macd_histogram volume_ratio : Q) : option signal :=
  match signal_direction z_score rsi macd_histogram with
  | None => None
  | Some d =>
      let s := signal_strength d rsi macd_histogram volume_ratio in
      let precision :=
        calculate_signal_precision z_score rsi macd_histogram volume_ratio in
      if Qltb precision 60 then None
      else Some (mkSignal d s precision)
  end.

(** Two outcomes of the classifier, the second one for the larger volume
    ratio: either both are absent, or both are signals and the strength
    does not go down. *)
Definition strength_mono (lo hi : option signal) : Prop :=
  match lo, hi with
  | Some a, Some b => strength_le (sig_strength a) (sig_strength b)
  | None, None => True
  | _, _ => False
  end.

(** ** pandas series

    A [pd.Series] of floats is a list of [option Q] under the default
    positional index; [None] is NaN.  The price and volume columns that
    the pipeline reads hold finite values, so they are given as
    [list Q] and lifted with [series]. *)

Definition series (xs : list Q) : list (option Q) := List.map Some xs.

(** Arithmetic on float values that may be NaN.  A division by zero
    yields a value that is not a finite number, hence [None]. *)
Definition lift2 (f : Q -> Q -> Q) (a b : option Q) : option Q :=
  match a, b with
  | Some x, Some y => Some (f x y)
  | _, _ => None
  end.

Definition fsub : option Q -> option Q -> option Q := lift2 Qminus.
Definition fadd : option Q -> option Q -> option Q := lift2 Qplus.
Definition fmul : option Q -> option Q -> option Q := lift2 Qmult.

Definition fdiv (a b : option Q) : option Q :=
  match a, b with
  | Some x, Some y => if Qeq_bool y 0 then None else Some (x / y)
  | _, _ => None
  end.

Definition fabs (a : option Q) : option Q := option_map Qabs a.

(** [s.iloc[-1]]: the last value; [None] also stands for the
    [IndexError] of an empty series. *)
Definition iloc_last (s : list (option Q)) : option Q := List.last s None.

(** Binary operations align two series on their index: the shorter one
    is extended with NaN. *)
Definition pad (n : nat) (s : list (option Q)) : list (option Q) :=
  s ++ repeat None (n - List.length s).

Fixpoint zip_with {A B C} (f : A -> B -> C) (l : list A) (r : list B)
    : list C :=
  match l, r with
  | a :: l', b :: r' => f a b :: zip_with f l' r'
  | _, _ => []
  end.

Definition series_op (f : option Q -> option Q -> option Q)
    (a b : list (option Q)) : list (option Q) :=
  let n := Nat.max (List.length a) (List.length b) in
  zip_with f (pad n a) (pad n b).

(** [s.shift()]: every value moves one position down, NaN enters. *)
Definition shift (s : list (option Q)) : list (option Q) :=
  match s with
  | [] => []
  | _ => None :: removelast s
  end.

(** [s.diff()]: [s - s.shift()]. *)
Definition diff (s : list (option Q)) : list (option Q) :=
  series_op fsub s (shift s).

(** [s.where(cond, other)]: positions where [cond] is false (NaN
    compares false) are replaced by [other]. *)
Definition where_ (cond : Q -> bool) (other : Q) (s : list (option Q))
    : list (option Q) :=
  List.map (fun v => match v with
                     | Some x => if cond x then Some x else Some other
                     | None => Some other
                     end) s.

Definition neg (s : list (option Q)) : list (option Q) :=
  List.map (option_map Qopp) s.

(** The values of a window, if none of them is NaN. *)
Fixpoint finite_values (w : list (option Q)) : option (list Q) :=
  match w with
  | [] => Some []
  | Some x :: w' => option_map (cons x) (finite_values w')
  | None :: _ => None
  end.

(** The [w] values that end at position [t]. *)
Definition window {A} (w t : nat) (s : list A) : list A :=
  firstn w (skipn (S t - w) s).

(** [s.rolling(window=w).agg()]: at each position the aggregate of the
    trailing window; NaN while the window is not full ([min_periods]
    is the window size), when it holds a NaN, or when it is empty. *)
Definition rolling (agg : list Q -> option Q) (w : nat)
    (s : list (option Q)) : list (option Q) :=
  List.map (fun t =>
              if (w =? 0)%nat || (S t <? w)%nat then None
              else match finite_values (window w t s) with
                   | Some vs => agg vs
                   | None => None
                   end)
           (seq 0 (List.length s)).

Definition qsum (l : list Q) : Q := fold_right Qplus 0 l.

Definition qlen (l : list Q) : Q := inject_Z (Z.of_nat (List.length l)).

(** [s.mean()] of a series without NaN; NaN for an empty one. *)
Definition mean (l : list Q) : option Q :=
  match l with
  | [] => None
  | _ => Some (qsum l / qlen l)
  end.

Definition qmin_list (l : list Q) : option Q :=
  match l with
  | [] => None
  | x :: l' => Some (fold_left Qmin l' x)
  end.

Definition qmax_list (l : list Q) : option Q :=
  match l with
  | [] => None
  | x :: l' => Some (fold_left Qmax l' x)
  end.

(** The maximum of a row of [pd.concat([...], axis=1).max(axis=1)]:
    NaN entries are skipped; NaN if every entry is NaN. *)
Definition fmax (a b : option Q) : option Q :=
  match a, b with
  | Some x, Some y => Some (Qmax x y)
  | Some x, None => Some x
  | None, b => b
  end.

(** [s.ewm(span=span).mean()] with pandas' default [adjust=True]:
    [y_t = (x_t + (1-a) x_(t-1) + ... + (1-a)^t x_0)
           / (1 + (1-a) + ... + (1-a)^t)] with [a = 2/(span+1)];
    [num] and [den] carry the two sums. *)
Definition ewm_alpha (span : nat) : Q :=
  2 / (inject_Z (Z.of_nat span) + 1).

Fixpoint ewm_from (a num den : Q) (xs : list Q) : list Q :=
  match xs with
  | [] => []
  | x :: r =>
      let num' := x + (1 - a) * num in
      let den' := 1 + (1 - a) * den in
      (num' / den') :: ewm_from a num' den' r
  end.

Definition ewm_mean (span : nat) (xs : list Q) : list Q :=
  ewm_from (ewm_alpha span) 0 0 xs.

(** Python's [round(x, ndigits)] on a float: to the nearest multiple of
    [10^-ndigits], ties to the even one. *)
Definition round_half_even (y : Q) : Z :=
  let f := Qfloor y in
  let r := y - inject_Z f in
  if Qltb r (1 # 2) then f
  else if Qgtb r (1 # 2) then (f + 1)%Z
  else if Z.even f then f else (f + 1)%Z.

Definition py_round (x : Q) (ndigits : nat) : Q :=
  let s := inject_Z (10 ^ Z.of_nat ndigits) in
  inject_Z (round_half_even (x * s)) / s.

(** ** analysis.py: the indicator engine

    Every function returns an [option]: [None] is a result that is not
    a finite number (NaN), or an exception raised by pandas.  The square
    root of the standard deviation is the one operation that the
    rationals lack; it is the parameter [fsqrt]. *)

Section IndicatorEngine.

Variable fsqrt : Q -> Q.

(** [rolling(...).std()]: the sample standard deviation ([ddof=1]),
    NaN for a window of fewer than two values. *)
Definition std (l : list Q) : option Q :=
  if (List.length l <? 2)%nat then None
  else match mean l with
       | Some m =>
           Some (fsqrt (qsum (List.map (fun x => (x - m) * (x - m)) l)
                        / (qlen l - 1)))
       | None => None
       end.

(** [calculate_z_score] *)
Definition calculate_z_score (prices : list Q) (period : nat) : option Q :=
  if (List.length prices <? period)%nat then Some 0
  else
    let rolling_mean := rolling mean period (series prices) in
    let rolling_std := rolling std period (series prices) in
    match iloc_last rolling_std with
    | Some sd =>
        if Qeq_bool sd 0 then Some 0
        else fdiv (fsub (iloc_last (series prices)) (iloc_last rolling_mean))
                  (Some sd)
    | None => None
    end.

(** [calculate_sma] *)
Definition calculate_sma (prices : list Q) (period : nat) : option Q :=
  if (List.length prices <? period)%nat then
    if (0 <? List.length prices)%nat then mean prices else Some 0
  else iloc_last (rolling mean period (series prices)).

(** [calculate_rsi] *)
Definition calculate_rsi (prices : list Q) (period : nat) : option Q :=
  if (List.length prices <? period + 1)%nat then Some 50
  else
    let delta := diff (series prices) in
    let gain := rolling mean period (where_ (fun d => Qgtb d 0) 0 delta) in
    let loss :=
      rolling mean period (neg (where_ (fun d => Qltb d 0) 0 delta)) in
    match iloc_last loss with
    | Some l =>
        if Qeq_bool l 0 then Some 100
        else
          let rs := fdiv (iloc_last gain) (Some l) in
          fsub (Some 100) (fdiv (Some 100) (fadd (Some 1) rs))
    | None => None
    end.

(** [calculate_macd]; [None] is the [ValueError] that [ewm] raises for
    a span below 1. *)
Definition calculate_macd (prices : list Q) (fast slow signal : nat)
    : option (Q * Q * Q) :=
  if (List.length prices <? slow)%nat then Some (0, 0, 0)
  else if (fast =? 0)%nat || (slow =? 0)%nat || (signal =? 0)%nat then None
  else
    let ema_fast := ewm_mean fast prices in
    let ema_slow := ewm_mean slow prices in
    let macd_line := zip_with Qminus ema_fast ema_slow in
    let signal_line := ewm_mean signal macd_line in
    let histogram := zip_with Qminus macd_line signal_line in
    match iloc_last (series macd_line), iloc_last (series signal_line),
          iloc_last (series histogram) with
    | Some m, Some s, Some h => Some (m, s, h)
    | _, _, _ => None
    end.

(** [calculate_volume_sma] *)
Definition calculate_volume_sma (volumes : list Q) (period : nat)
    : option Q :=
  if (List.length volumes <? period)%nat then
    if (0 <? List.length volumes)%nat then mean volumes else Some 0
  else iloc_last (rolling mean period (series volumes)).

(** [calculate_bollinger_bands] *)
Definition calculate_bollinger_bands (prices : list Q) (period : nat)
    (std_dev : Q) : option Q * option Q * option Q :=
  if (List.length prices <? period)%nat then (Some 0, Some 0, Some 0)
  else
    let sma := rolling mean period (series prices) in
    let sd := rolling std period (series prices) in
    let width := List.map (fun s => fmul s (Some std_dev)) sd in
    let upper_band := series_op fadd sma width in
    let lower_band := series_op fsub sma width in
    (iloc_last upper_band, iloc_last sma, iloc_last lower_band).

(** [calculate_stochastic] *)
Definition calculate_stochastic (high low close : list Q) (period : nat)
    : option Q * option Q :=
  if (List.length close <? period)%nat then (Some 50, Some 50)
  else
    let lowest_low := rolling qmin_list period (series low) in
    let highest_high := rolling qmax_list period (series high) in
    let k_percent :=
      List.map (fmul (Some 100))
        (series_op fdiv (series_op fsub (series close) lowest_low)
                        (series_op fsub highest_high lowest_low)) in
    let d_percent := rolling mean 3 k_percent in
    (iloc_last k_percent, iloc_last d_percent).

(** [calculate_atr] *)
Definition calculate_atr (high low close : list Q) (period : nat)
    : option Q :=
  if (List.length close <? period)%nat then Some 0
  else
    let tr1 := series_op fsub (series high) (series low) in
    let tr2 :=
      List.map fabs (series_op fsub (series high) (shift (series close))) in
    let tr3 :=
      List.map fabs (series_op fsub (series low) (shift (series close))) in
    let true_range := series_op fmax (series_op fmax tr1 tr2) tr3 in
    let atr := rolling mean period true_range in
    iloc_last atr.

(** ** analysis.py: the orchestrator *)

(** A row of the OHLCV frame built by [get_klines_data]. *)
Record candle := mkCandle {
  timestamp : Z;
  open : Q;
  high : Q;
  low : Q;
  close : Q;
  volume : Q;
  turnover : Q
}.

(** The dictionary built by [analyze_symbol]. *)
Record analysis_result := mkResult {
  r_symbol : string;
  r_current_price : Q;
  r_z_score : Q;
  r_sma_50 : Q;
  r_rsi : Q;
  r_macd_line : Q;
  r_macd_signal : Q;
  r_macd_histogram : Q;
  r_volume_sma : Q;
  r_volume_ratio : Q;
  r_signal : direction;
  r_strength : strength;
  r_precision : Q;
  r_timestamp : Z;
  r_valid : bool
}.

(** The indicator values that [analyze_symbol] computes from a frame. *)
Record snapshot := mkSnapshot {
  z_score : Q;
  sma_50 : Q;
  rsi : Q;
  macd_line : Q;
  macd_signal : Q;
  macd_histogram : Q;
  volume_sma : Q;
  volume_ratio : Q
}.

Definition indicators (data : list candle) : option snapshot :=
  let prices := List.map close data in
  let volumes := List.map volume data in
  z ← calculate_z_score prices 20;
  sma ← calculate_sma prices 50;
  r ← calculate_rsi prices 14;
  '(ml, ms, mh) ← calculate_macd prices 12 26 9;
  vsma ← calculate_volume_sma volumes 20;
  let current_volume := List.last volumes 0 in
  let ratio := if Qgtb vsma 0 then current_volume / vsma else 1.0 in
  Some (mkSnapshot z sma r ml ms mh vsma ratio).

(** [analyze_symbol]; [now] is the reading of [datetime.now()].  The
    classifier takes finite numbers, so the indicators are bound as
    options; with the periods used here they are finite for every
    frame (see [indicators_defined]), and that binding never fails. *)
Definition analyze_symbol (now : Z) (symbol : string) (data : list candle)
    (current_price : Q) : option analysis_result :=
  if (List.length data <? 50)%nat then None
  else
    ind ← indicators data;
    signal_info ← generate_signal (z_score ind) (rsi ind)
                    (macd_histogram ind) (volume_ratio ind);
    Some {| r_symbol := symbol;
            r_current_price := current_price;
            r_z_score := py_round (z_score ind) 4;
            r_sma_50 := py_round (sma_50 ind) 4;
            r_rsi := py_round (rsi ind) 2;
            r_macd_line := py_round (macd_line ind) 6;
            r_macd_signal := py_round (macd_signal ind) 6;
            r_macd_histogram := py_round (macd_histogram ind) 6;
            r_volume_sma := py_round (volume_sma ind) 2;
            r_volume_ratio := py_round (volume_ratio ind) 2;
            r_signal := sig_direction signal_info;
            r_strength := sig_strength signal_info;
            r_precision := py_round (sig_precision signal_info) 2;
            r_timestamp := now;
            r_valid := true |}.

End IndicatorEngine.

(** The text that the result dictionary holds under ["strength"]. *)
Definition strength_label (s : strength) : string :=
  match s with
  | WEAK => "WEAK"
  | MODERATE => "MODERATE"
  | STRONG => "STRONG"
  end.

(** The sort key [lambda x: (x['precision'], x['strength'])]. *)
Definition sort_key (r : analysis_result) : Q * string :=
  (r_precision r, strength_label (r_strength r)).

(** Python's [<] on two [(float, str)] tuples: the first components
    decide unless they are equal ([==]); then the strings decide, by
    code point. *)
Definition key_lt (a b : Q * string) : bool :=
  if Qeq_bool (fst a) (fst b) then String.ltb (snd a) (snd b)
  else Qltb (fst a) (fst b).

(** [list.sort(key=..., reverse=True)]: a stable sort into descending
    key order; elements with equal keys keep their order. *)
Fixpoint insert_desc {A} (key : A -> Q * string) (x : A) (l : list A)
    : list A :=
  match l with
  | [] => [x]
  | y :: l' =>
      if key_lt (key x) (key y) then y :: insert_desc key x l'
      else x :: y :: l'
  end.

Definition sort_desc {A} (key : A -> Q * string) (l : list A) : list A :=
  fold_right (insert_desc key) [] l.


(** An element of the list returned by [get_all_futures_data]. *)
Record future_data := mkFuture {
  fd_symbol : string;
  fd_data : list candle;
  fd_current_price : Q
}.

(** [analyze_all_futures], given the list that
    [api_client.get_all_futures_data()] returned.  [save_signal] writes
    to the external store and its failure is caught: it does not
    change the returned list. *)
Definition analyze_all_futures (fsqrt : Q -> Q) (now : Z)
    (futures_data : list future_data) : list analysis_result :=
  match futures_data with
  | [] => []
  | _ =>
      let analysis_results :=
        omap (fun fd => analyze_symbol fsqrt now (fd_symbol fd) (fd_data fd)
                          (fd_current_price fd))
             futures_data in
      sort_desc sort_key analysis_results
  end.


(** ** api_client.py *)

(** [s.endswith(suffix)], [s.startswith(prefix)], [sub in s]. *)
Definition endswith (s suffix : string) : bool :=
  String.prefix (String.rev suffix) (String.rev s).

Definition startswith (s pre : string) : bool := String.prefix pre s.

Fixpoint contains (sub s : string) : bool :=
  String.prefix sub s ||
  match s with
  | EmptyString => false
  | String _ s' => contains sub s'
  end.

(** An entry of the instrument list; [symbol] is
    [instrument.get("symbol")]. *)
Record instrument := mkInstrument {
  symbol : option string
}.

(** The JSON answer of the instruments endpoint: [retCode] and
    [result.list]. *)
Record response := mkResponse {
  retCode : Z;
  result_list : list instrument
}.

(** The name patterns that [get_all_futures_symbols] excludes. *)
Definition denylisted (s : string) : bool :=
  (startswith s "1000" || startswith s "10000" || startswith s "100000"
   || startswith s "1000000")
  || (startswith s "TEST" || startswith s "DEMO" || startswith s "MOCK")
  || contains "TEST" s || contains "DEMO" s.

Definition accepted (s : string) : bool :=
  negb (String.eqb s "") && endswith s "USDT" && negb (denylisted s).

(** [get_all_futures_symbols], given what [_make_request] returned
    ([None] for a failed request). *)
Definition get_all_futures_symbols (data : option response) : list string :=
  match data with
  | Some d =>
      if (retCode d =? 0)%Z then
        omap (fun i => match symbol i with
                       | Some s => if accepted s then Some s else None
                       | None => None
                       end)
             (result_list d)
      else []
  | None => []
  end.

(** The symbols the upstream list names, in its order. *)
Definition listed_symbols (d : response) : list string :=
  omap symbol (result_list d).

(** What the two per-symbol fetches return: [get_klines_data] and
    [get_current_price], [None] for a failed fetch. *)
Record upstream := mkUpstream {
  get_klines_data : string -> option (list candle);
  get_current_price : string -> option Q
}.

(** [_process_symbol_data]; [if current_price:] takes neither [None]
    nor [0.0]. *)
Definition process_symbol_data (u : upstream) (s : string)
    : option future_data :=
  match get_klines_data u s with
  | Some df =>
      if (50 <? List.length df)%nat then
        match get_current_price u s with
        | Some current_price =>
            if Qeq_bool current_price 0 then None
            else Some (mkFuture s df current_price)
        | None => None
        end
      else None
  | None => None
  end.

(** [get_all_futures_data]: one task per entry of [symbols];
    [completed] lists the symbols in the order in which
    [as_completed] yields their tasks. *)
Definition get_all_futures_data (u : upstream) (symbols completed : list string)
    : list future_data :=
  match symbols with
  | [] => []
  | _ => omap (process_symbol_data u) completed
  end.

(** ** monitoring.py: CacheManager *)

Section Cache.

Context {V : Type}.

(** The two dictionaries of a [CacheManager]; instants are
    microseconds, as in a [datetime]. *)
Record cache_manager := mkCache {
  cache : gmap string V;
  timeouts : gmap string Z;
  default_timeout : Z
}.

(** [timedelta(seconds=n)] *)
Definition seconds (n : Z) : Z := (n * 1000000)%Z.

(** [CacheManager.get] at the instant [now]: the value returned and
    the state left. *)
Definition cache_get (c : cache_manager) (key : string) (now : Z)
    : option V * cache_manager :=
  match cache c !! key with
  | Some v =>
      match timeouts c !! key with
      | Some expiry =>
          if (now <? expiry)%Z then (Some v, c)
          else (None, mkCache (delete key (cache c))
                              (delete key (timeouts c))
                              (default_timeout c))
      | None => (None, c)
      end
  | None => (None, c)
  end.

(** [timeout or self.default_timeout] *)
Definition effective_timeout (c : cache_manager) (timeout : option Z) : Z :=
  match timeout with
  | Some t => if (t =? 0)%Z then default_timeout c else t
  | None => default_timeout c
  end.

(** [CacheManager.set] at the instant [now]. *)
Definition cache_set (c : cache_manager) (key : string) (value : V)
    (timeout : option Z) (now : Z) : cache_manager :=
  mkCache (<[key := value]> (cache c))
          (<[key := (now + seconds (effective_timeout c timeout))%Z]>
             (timeouts c))
          (default_timeout c).

End Cache.

Arguments cache_manager : clear implicits.

(** ** monitoring.py: the rest of CacheManager, and [cache_result] *)

Section CacheOperations.

Context {V : Type}.

(** [CacheManager.clear] *)
Definition cache_clear (c : cache_manager V) : cache_manager V :=
  mkCache ∅ ∅ (default_timeout c).

(** The keys that [clear_expired] collects:
    [[key for key, expiry in self.timeouts.items()
      if current_time >= expiry]]. *)
Definition expired_keys (c : cache_manager V) (now : Z) : list string :=
  (map_to_list (filter (fun kv => (kv.2 <= now)%Z) (timeouts c))).*1.

(** [CacheManager.clear_expired] at the instant [now]: each collected key
    is deleted from either dictionary that holds it. *)
Definition cache_clear_expired (c : cache_manager V) (now : Z)
    : cache_manager V :=
  let ks := expired_keys c now in
  mkCache (foldr delete (cache c) ks) (foldr delete (timeouts c) ks)
          (default_timeout c).

(** The dictionary returned by [get_stats]. *)
Record cache_stats := mkStats {
  total_entries : nat;
  expired_entries : nat;
  memory_usage : nat
}.

(** [CacheManager.get_stats]; [str_len v] is [len(str(v))]. *)
Definition cache_get_stats (str_len : V -> nat) (c : cache_manager V)
    (now : Z) : cache_stats :=
  {| total_entries := size (cache c);
     expired_entries := List.length (expired_keys c now);
     memory_usage :=
       map_fold (fun _ v acc => (str_len v + acc)%nat) 0%nat (cache c) |}.

(** The two dictionaries hold the same keys. *)
Definition cache_wf (c : cache_manager V) : Prop :=
  dom (cache c) = dom (timeouts c).

End CacheOperations.

(** The wrapper that [cache_result(timeout)] puts around a function, for
    one call.  A cached value is a Python object: [None] in
    [option R] is Python's [None].  [key] is the cache key of the call,
    [func] is what the wrapped function returns if it is run, [t_get]
    and [t_set] are the instants of the two accesses to the cache.  The
    result is the value returned, the cache left, and whether the wrapped
    function was run. *)
Definition cached_call {R} (c : cache_manager (option R)) (key : string)
    (timeout : Z) (func : option R) (t_get t_set : Z)
    : option R * cache_manager (option R) * bool :=
  match cache_get c key t_get with
  | (Some (Some r), c') => (Some r, c', false)
  | (_, c') => (func, cache_set c' key func (Some timeout) t_set, true)
  end.

(** [get_all_futures_symbols] as [api_client] exposes it, under
    [@cache_result(timeout=600)]; [data] is what the request returns if
    it is made. *)
Definition cached_get_all_futures_symbols
    (c : cache_manager (option (list string))) (key : string)
    (data : option response) (t_get t_set : Z)
    : option (list string) * cache_manager (option (list string)) * bool :=
  cached_call c key 600 (Some (get_all_futures_symbols data)) t_get t_set.

(** ** monitoring.py: PerformanceMonitor *)

(** An entry of [PerformanceMonitor.metrics]; a [min_time] of [None] is
    the initial [float('inf')]. *)
Record metric := mkMetric {
  m_count : nat;
  m_total_time : Q;
  m_min_time : option Q;
  m_max_time : Q;
  m_errors : nat;
  m_last_execution : option Z
}.

(** The value that the [defaultdict] creates for a new operation. *)
Definition default_metric : metric := mkMetric 0 0 None 0 0 None.

(** Python's builtin [max(a, b)]: [b] if [b > a], else [a]. *)
Definition py_max (a b : Q) : Q := if Qgtb b a then b else a.

(** [PerformanceMonitor.record_metric] at the instant [now]. *)
Definition record_metric (metrics : gmap string metric) (operation : string)
    (execution_time : Q) (success : bool) (now : Z) : gmap string metric :=
  let m := default default_metric (metrics !! operation) in
  <[operation :=
      {| m_count := S (m_count m);
         m_total_time := m_total_time m + execution_time;
         m_min_time :=
           match m_min_time m with
           | None => Some execution_time
           | Some x => Some (py_min x execution_time)
           end;
         m_max_time := py_max (m_max_time m) execution_time;
         m_errors := if success then m_errors m else S (m_errors m);
         m_last_execution := Some now |}]> metrics.

(** An entry of the dictionary returned by [get_metrics]. *)
Record metric_report := mkReport {
  rep_count : nat;
  rep_avg_time : Q;
  rep_min_time : Q;
  rep_max_time : Q;
  rep_success_rate : Q;
  rep_errors : nat;
  rep_last_execution : option Z
}.

(** [avg_time] and [success_rate] of [get_metrics], before rounding. *)
Definition avg_time (m : metric) : Q :=
  if (0 <? m_count m)%nat
  then m_total_time m / inject_Z (Z.of_nat (m_count m))
  else 0.

Definition success_rate (m : metric) : Q :=
  if (0 <? m_count m)%nat
  then inject_Z (Z.of_nat (m_count m) - Z.of_nat (m_errors m))
       / inject_Z (Z.of_nat (m_count m)) * 100
  else 0.

Definition report_of (m : metric) : metric_report :=
  {| rep_count := m_count m;
     rep_avg_time := py_round (avg_time m) 3;
     rep_min_time := match m_min_time m with Some x => x | None => 0 end;
     rep_max_time := m_max_time m;
     rep_success_rate := py_round (success_rate m) 2;
     rep_errors := m_errors m;
     rep_last_execution := m_last_execution m |}.

(** [PerformanceMonitor.get_metrics] and [reset_metrics]. *)
Definition get_metrics (metrics : gmap string metric)
    : gmap string metric_report :=
  report_of <$> metrics.

Definition reset_metrics (metrics : gmap string metric) : gmap string metric :=
  ∅.

(** A recorded execution: its time, whether it succeeded, its instant. *)
Record execution := mkExecution {
  e_time : Q;
  e_success : bool;
  e_now : Z
}.

(** A sequence of [record_metric] calls for one operation. *)
Definition record_all (metrics : gmap string metric) (operation : string)
    (es : list execution) : gmap string metric :=
  fold_left (fun ms e =>
               record_metric ms operation (e_time e) (e_success e) (e_now e))
            es metrics.

(** ** monitoring.py: SystemHealthMonitor *)

Inductive alert_type := API_HEALTH | API_ERROR | DB_HEALTH | DB_ERROR.

(** An alert: its timestamp and its type (the message text is not
    modelled). *)
Record alert := mkAlert {
  alert_timestamp : Z;
  alert_kind : alert_type
}.

Record health_monitor := mkHealth {
  api_connectivity : bool;
  database_connectivity : bool;
  analysis_performance : bool;
  last_check : Z;
  alerts : list alert
}.

(** [SystemHealthMonitor.__init__] at the instant [now]. *)
Definition new_health_monitor (now : Z) : health_monitor :=
  mkHealth true true true now [].

(** [deque(maxlen=n).append(x)]: the new element goes to the right end
    and, beyond [n] elements, the leftmost is discarded. *)
Definition deque_append {A} (maxlen : nat) (d : list A) (x : A) : list A :=
  let d' := d ++ [x] in
  drop (List.length d' - maxlen) d'.

Definition ALERTS_MAXLEN : nat := 100.

(** [check_api_health]; [symbols] is what
    [api_client.get_all_futures_symbols()] returns ([None]: it raised)
    and [execution_time] the time it took. *)
Definition check_api_health (h : health_monitor)
    (symbols : option (list string)) (execution_time : Q) (now : Z)
    : bool * health_monitor :=
  match symbols with
  | Some syms =>
      let is_healthy :=
        (0 <? List.length syms)%nat && Qltb execution_time 10 in
      (is_healthy,
       mkHealth is_healthy (database_connectivity h) (analysis_performance h)
         now
         (if is_healthy then alerts h
          else deque_append ALERTS_MAXLEN (alerts h) (mkAlert now API_HEALTH)))
  | None =>
      (false,
       mkHealth false (database_connectivity h) (analysis_performance h)
         (last_check h)
         (deque_append ALERTS_MAXLEN (alerts h) (mkAlert now API_ERROR)))
  end.

(** [check_database_health]; [raised] tells whether
    [db_manager.get_statistics()] raised. *)
Definition check_database_health (h : health_monitor) (raised : bool)
    (execution_time : Q) (now : Z) : bool * health_monitor :=
  if raised then
    (false,
     mkHealth (api_connectivity h) false (analysis_performance h)
       (last_check h)
       (deque_append ALERTS_MAXLEN (alerts h) (mkAlert now DB_ERROR)))
  else
    let is_healthy := Qltb execution_time 5 in
    (is_healthy,
     mkHealth (api_connectivity h) is_healthy (analysis_performance h)
       (last_check h)
       (if is_healthy then alerts h
        else deque_append ALERTS_MAXLEN (alerts h) (mkAlert now DB_HEALTH))).

(** ["overall_health": all(self.health_status.values())]; the fourth
    value, the [last_check] datetime, is always true. *)
Definition overall_health (h : health_monitor) : bool :=
  api_connectivity h && database_connectivity h && analysis_performance h.

(** One health check, of either kind. *)
Inductive health_check :=
  | ApiCheck (symbols : option (list string)) (execution_time : Q) (now : Z)
  | DbCheck (raised : bool) (execution_time : Q) (now : Z).

Definition run_check (h : health_monitor) (k : health_check) : health_monitor :=
  match k with
  | ApiCheck s t now => snd (check_api_health h s t now)
  | DbCheck r t now => snd (check_database_health h r t now)
  end.

(** ** api_routes.py: the health endpoint *)

(** [check_system_health]: the API check, then the database check, then
    [get_health_status]; the values are ['api_healthy'],
    ['database_healthy'] and ['overall_health'] of the answer, and the
    monitor left. *)
Definition check_system_health (h : health_monitor)
    (symbols : option (list string)) (api_time : Q) (api_now : Z)
    (raised : bool) (db_time : Q) (db_now : Z)
    : bool * bool * bool * health_monitor :=
  let '(api_health, h1) := check_api_health h symbols api_time api_now in
  let '(db_health, h2) := check_database_health h1 raised db_time db_now in
  (api_health, db_health, overall_health h2, h2).

(** ** Predicates used in the statements *)

(** A value of a series that is a number (not NaN) and not negative. *)
Definition nonneg_value (v : option Q) : Prop :=
  match v with Some x => 0 <= x | None => False end.

(** Two sort keys are the same: equal precision ([==]) and the same
    strength label. *)
Definition same_key (a b : Q * string) : bool :=
  Qeq_bool (fst a) (fst b) && String.eqb (snd a) (snd b).

(** ** Sample data *)

(** A square root on the rationals that is exact on squares of
    rationals in lowest terms and rounds down otherwise; it stands for
    the float square root where a concrete one is needed to run the
    embedding. *)
Definition sqrt_lower (x : Q) : Q :=
  let x := Qred x in
  inject_Z (Z.sqrt (Qnum x * Zpos (Qden x))) / inject_Z (Zpos (Qden x)).

(** A candle whose prices all equal [c], with volume [v]. *)
Definition flat_candle (c v : Q) : candle := mkCandle 0 c c c c v (c * v).

(** An upstream that serves every symbol the same frame and price. *)
Definition constant_upstream (df : list candle) (price : Q) : upstream :=
  mkUpstream (fun _ => Some df) (fun _ => Some price).

(** An instrument list that names one symbol twice. *)
Definition repeated_listing : response :=
  mkResponse 0 [mkInstrument (Some "BTCUSDT"); mkInstrument (Some "ETHUSDT");
                mkInstrument (Some "BTCUSDT")].

(** * Properties *)

(** ** Float comparisons *)

Lemma Qltb_lt (x y : Q) : Qltb x y = true <-> x < y.
Proof.
  unfold Qltb. rewrite negb_true_iff. split.
  - intros H. apply Qnot_le_lt. intros Hle.
    apply Qle_bool_iff in Hle. congruence.
  - intros H. destruct (Qle_bool y x) eqn:E; [|reflexivity].
    apply Qle_bool_iff in E. lra.
Qed.

Lemma Qltb_ge (x y : Q) : Qltb x y = false <-> y <= x.
Proof.
  unfold Qltb. rewrite negb_false_iff. apply Qle_bool_iff.
Qed.

Lemma Qgtb_gt (x y : Q) : Qgtb x y = true <-> y < x.
Proof. apply Qltb_lt. Qed.

Lemma Qgtb_le (x y : Q) : Qgtb x y = false <-> x <= y.
Proof. apply Qltb_ge. Qed.

Lemma py_min_le_l (a b : Q) : py_min a b <= a.
Proof.
  unfold py_min. destruct (Qltb b a) eqn:E.
  - apply Qltb_lt in E. lra.
  - lra.
Qed.

Lemma py_min_le_r (a b : Q) : py_min a b <= b.
Proof.
  unfold py_min. destruct (Qltb b a) eqn:E.
  - lra.
  - apply Qltb_ge in E. lra.
Qed.

Lemma py_min_glb (a b c : Q) : c <= a -> c <= b -> c <= py_min a b.
Proof. unfold py_min. destruct (Qltb b a); auto. Qed.

(** A tactic that turns every boolean float comparison of the context
    and of the goal into the order on [Q]. *)
Ltac cmp_cases :=
  repeat match goal with
  | |- context [Qgtb ?a ?b] =>
      let E := fresh "E" in
      destruct (Qgtb a b) eqn:E;
      [apply Qgtb_gt in E | apply Qgtb_le in E]
  | |- context [Qltb ?a ?b] =>
      let E := fresh "E" in
      destruct (Qltb a b) eqn:E;
      [apply Qltb_lt in E | apply Qltb_ge in E]
  end.

Lemma py_min_nonneg (a b : Q) : 0 <= a -> 0 <= b -> 0 <= py_min a b.
Proof. apply py_min_glb. Qed.

(** ** The classifier *)

Lemma z_score_contribution_bounds (z : Q) :
  0 <= py_min (Qabs z / 3) 1 * 30 <= 30.
Proof.
  assert (H0 : 0 <= Qabs z / 3).
  { pose proof (Qabs_nonneg z). apply Qle_shift_div_l; lra. }
  pose proof (py_min_nonneg (Qabs z / 3) 1 H0 ltac:(lra)).
  pose proof (py_min_le_r (Qabs z / 3) 1).
  split; lra.
Qed.



(** Whatever rule fixes the direction also earns at least ten points. *)
Lemma direction_earns_precision (z r m v : Q) (d : direction) :
  signal_direction z r m = Some d ->
  60 <= calculate_signal_precision z r m v.
Proof.
  unfold signal_direction, calculate_signal_precision,
    Config.Z_SCORE_THRESHOLD, Config.RSI_OVERBOUGHT, Config.RSI_OVERSOLD.
  intros Hd.
  pose proof (z_score_contribution_bounds z) as [Hz _].
  apply py_min_glb; [|lra].
  destruct (Qgtb z 2.0) eqn:Ez.
  - apply Qgtb_gt in Ez.
    assert (20 <= py_min (Qabs z / 3) 1 * 30).
    { assert (2 # 3 <= py_min (Qabs z / 3) 1); [|lra].
      apply py_min_glb; [|lra].
      apply Qle_shift_div_l; [lra|].
      apply (Qabs_case z (fun a => (2 # 3) * 3 <= a)); intros; lra. }
    cmp_cases; simpl; lra.
  - destruct (Qltb z (Qopp 2.0)) eqn:Ez'.
    + apply Qltb_lt in Ez'.
      assert (20 <= py_min (Qabs z / 3) 1 * 30).
      { assert (2 # 3 <= py_min (Qabs z / 3) 1); [|lra].
        apply py_min_glb; [|lra].
        apply Qle_shift_div_l; [lra|].
        apply (Qabs_case z (fun a => (2 # 3) * 3 <= a)); intros; lra. }
      cmp_cases; simpl; lra.
    + clear Ez Ez'. revert Hd.
      destruct (Qgtb r 70) eqn:Er1; [apply Qgtb_gt in Er1|apply Qgtb_le in Er1].
      { intros _. cmp_cases; simpl; lra. }
      destruct (Qltb r 30) eqn:Er2; [apply Qltb_lt in Er2|apply Qltb_ge in Er2].
      { intros _. cmp_cases; simpl; lra. }
      destruct (Qltb m (- 0.001)) eqn:Em1;
        [apply Qltb_lt in Em1|apply Qltb_ge in Em1].
      { intros _.
        assert (0.001 < Qabs m).
        { apply (Qabs_case m (fun a => 0.001 < a)); intros; lra. }
        cmp_cases; simpl; lra. }
      destruct (Qgtb m 0.001) eqn:Em2;
        [apply Qgtb_gt in Em2|intros Hd; discriminate Hd].
      intros _.
      assert (0.001 < Qabs m).
      { apply (Qabs_case m (fun a => 0.001 < a)); intros; lra. }
      cmp_cases; simpl; lra.
Qed.

(** Hence the gate of [generate_signal] never closes on a direction:
    a signal is absent exactly when no rule fixed a direction. *)
Lemma generate_signal_some (z r m v : Q) (d : direction) :
  signal_direction z r m = Some d ->
  generate_signal z r m v =
    Some (mkSignal d (signal_strength d r m v)
            (calculate_signal_precision z r m v)).
Proof.
  intros Hd. unfold generate_signal. rewrite Hd.
  pose proof (direction_earns_precision z r m v d Hd) as Hp.
  apply Qltb_ge in Hp. simpl. now rewrite Hp.
Qed.

Lemma generate_signal_none (z r m v : Q) :
  signal_direction z r m = None -> generate_signal z r m v = None.
Proof. intros Hd. unfold generate_signal. now rewrite Hd. Qed.

Lemma signal_strength_mono (d : direction) (r m v1 v2 : Q) :
  v1 <= v2 ->
  strength_le (signal_strength d r m v1) (signal_strength d r m v2).
Proof.
  intros Hv. unfold signal_strength, strength_le.
  destruct (Qgtb v1 1.5) eqn:E1; [apply Qgtb_gt in E1|apply Qgtb_le in E1];
  destruct (Qgtb v2 1.5) eqn:E2; [apply Qgtb_gt in E2|apply Qgtb_le in E2|
                                  apply Qgtb_gt in E2|apply Qgtb_le in E2];
    try lra;
    repeat match goal with
           | |- context [if ?b then _ else _] => destruct b
           end; simpl; lia.
Qed.

Lemma generate_signal_mono (z r m v1 v2 : Q) :
  v1 <= v2 ->
  strength_mono (generate_signal z r m v1) (generate_signal z r m v2).
Proof.
  intros Hv. destruct (signal_direction z r m) as [d|] eqn:Hd.
  - rewrite !(generate_signal_some _ _ _ _ d Hd). simpl.
    now apply signal_strength_mono.
  - rewrite !(generate_signal_none _ _ _ _ Hd). exact I.
Qed.

Lemma signal_direction_z (z r m : Q) :
  (2 < z -> signal_direction z r m = Some SELL) /\
  (z < -2 -> signal_direction z r m = Some BUY).
Proof.
  unfold signal_direction, Config.Z_SCORE_THRESHOLD. split; intros Hz.
  - assert (E : Qgtb z 2.0 = true) by (apply Qgtb_gt; lra).
    now rewrite E.
  - assert (E : Qgtb z 2.0 = false) by (apply Qgtb_le; lra).
    assert (E' : Qltb z (Qopp 2.0) = true) by (apply Qltb_lt; lra).
    now rewrite E, E'.
Qed.

Lemma generate_signal_direction (z r m v : Q) (s : signal) :
  generate_signal z r m v = Some s ->
  signal_direction z r m = Some (sig_direction s).
Proof.
  unfold generate_signal.
  destruct (signal_direction z r m) as [d|]; [|discriminate].
  simpl. destruct (Qltb _ 60); [discriminate|].
  intros [= <-]. reflexivity.
Qed.

(** C1: whenever the additive precision score of an input tuple is below
    60, [generate_signal] returns nothing, whether or not the precedence
    rules fixed a direction. *)
Theorem precision_gate_suppresses_signal (z r m v : Q) :
  calculate_signal_precision z r m v < 60 ->
  generate_signal z r m v = None.
Proof.
  intros H. unfold generate_signal.
  destruct (signal_direction z r m); [|reflexivity].
  apply Qltb_lt in H. simpl. now rewrite H.
Qed.

Lemma precision_gate_suppresses_signal_witness :
  calculate_signal_precision 0 50 0 1 < 60 /\
  generate_signal 0 50 0 1 = None.
Proof.
  assert (H : calculate_signal_precision 0 50 0 1 < 60)
    by (vm_compute; reflexivity).
  split; [exact H|].
  exact (precision_gate_suppresses_signal 0 50 0 1 H).
Defined.

(** C2: a z-score above 2.0 makes every produced signal a SELL and a
    z-score below -2.0 makes it a BUY; with such a z-score, other RSI,
    MACD and volume inputs never give a signal of another direction. *)
Theorem z_score_decides_direction (z r m v : Q) (s : signal) :
  generate_signal z r m v = Some s ->
  (2 < z -> sig_direction s = SELL) /\
  (z < -2 -> sig_direction s = BUY) /\
  (forall r' m' v' s',
      2 < z \/ z < -2 ->
      generate_signal z r' m' v' = Some s' ->
      sig_direction s' = sig_direction s).
Proof.
  intros Hs. apply generate_signal_direction in Hs.
  destruct (signal_direction_z z r m) as [Hsell Hbuy].
  repeat split.
  - intros Hz. rewrite (Hsell Hz) in Hs. congruence.
  - intros Hz. rewrite (Hbuy Hz) in Hs. congruence.
  - intros r' m' v' s' Hz Hs'. apply generate_signal_direction in Hs'.
    destruct (signal_direction_z z r' m') as [Hsell' Hbuy'].
    destruct Hz as [Hz|Hz].
    + rewrite (Hsell Hz) in Hs. rewrite (Hsell' Hz) in Hs'. congruence.
    + rewrite (Hbuy Hz) in Hs. rewrite (Hbuy' Hz) in Hs'. congruence.
Qed.

Lemma z_score_decides_direction_witness :
  exists s, generate_signal 3 20 0.5 1 = Some s /\ sig_direction s = SELL.
Proof.
  eexists (mkSignal SELL WEAK _).
  assert (H : generate_signal 3 20 0.5 1
              = Some (mkSignal SELL WEAK
                        (calculate_signal_precision 3 20 0.5 1)))
    by (vm_compute; reflexivity).
  split; [exact H|].
  apply (z_score_decides_direction 3 20 0.5 1 _ H). reflexivity.
Defined.

(** C9: for fixed z-score, RSI and MACD inputs the outcome of the
    classifier is monotone in the volume ratio: a signal is present at
    every ratio or at none, and its strength never goes down as the ratio
    grows; in particular from 0.5 to 1.0 and from 1.0 to 2.0. *)
Theorem strength_monotone_in_volume_ratio (z r m : Q) :
  (forall v1 v2, v1 <= v2 ->
     strength_mono (generate_signal z r m v1) (generate_signal z r m v2)) /\
  strength_mono (generate_signal z r m 0.5) (generate_signal z r m 1.0) /\
  strength_mono (generate_signal z r m 1.0) (generate_signal z r m 2.0).
Proof.
  repeat split.
  - intros v1 v2. apply generate_signal_mono.
  - apply generate_signal_mono. lra.
  - apply generate_signal_mono. lra.
Qed.

Lemma strength_monotone_in_volume_ratio_witness :
  1.4 <= 1.6 /\
  strength_mono (generate_signal 1 50 (-0.0015) 1.4)
                (generate_signal 1 50 (-0.0015) 1.6).
Proof.
  assert (H : 1.4 <= 1.6) by lra.
  split; [exact H|].
  exact (proj1 (strength_monotone_in_volume_ratio 1 50 (-0.0015)) 1.4 1.6 H).
Defined.


(** ** The series cache *)

Section CacheFacts.

Context {V : Type}.
Implicit Types (c : cache_manager V) (key : string) (now expiry : Z).

(** A value is returned only before its expiry. *)
Lemma cache_get_fresh c key now v :
  fst (cache_get c key now) = Some v ->
  cache c !! key = Some v /\
  exists expiry, timeouts c !! key = Some expiry /\ (now < expiry)%Z.
Proof.
  unfold cache_get.
  destruct (cache c !! key) as [v'|] eqn:Hc; [|discriminate].
  destruct (timeouts c !! key) as [e|] eqn:Ht; [|discriminate].
  destruct (now <? e)%Z eqn:Hlt; [|discriminate].
  simpl. intros [= ->]. split; [reflexivity|].
  exists e. split; [reflexivity|]. now apply Z.ltb_lt.
Qed.

(** A [get] leaves every other key as it was. *)
Lemma cache_get_other c key key' now :
  key <> key' ->
  cache (snd (cache_get c key now)) !! key' = cache c !! key' /\
  timeouts (snd (cache_get c key now)) !! key' = timeouts c !! key'.
Proof.
  intros Hne. unfold cache_get.
  destruct (cache c !! key); [|done].
  destruct (timeouts c !! key) as [e|]; [|done].
  destruct (now <? e)%Z; [done|]. simpl.
  by rewrite !lookup_delete_ne.
Qed.

Lemma cache_get_expired c key v expiry now :
  cache c !! key = Some v ->
  timeouts c !! key = Some expiry ->
  (expiry <= now)%Z ->
  fst (cache_get c key now) = None /\
  cache (snd (cache_get c key now)) !! key = None /\
  timeouts (snd (cache_get c key now)) !! key = None.
Proof.
  intros Hc Ht Hle. unfold cache_get. rewrite Hc, Ht.
  assert (Hlt : (now <? expiry)%Z = false) by (apply Z.ltb_ge; lia).
  rewrite Hlt. simpl. by rewrite !lookup_delete_eq.
Qed.

(** What [set] stores. *)
Lemma cache_set_lookup c key (value : V) timeout now :
  cache (cache_set c key value timeout now) !! key = Some value /\
  timeouts (cache_set c key value timeout now) !! key
    = Some (now + seconds (effective_timeout c timeout))%Z.
Proof. unfold cache_set. simpl. by rewrite !lookup_insert_eq. Qed.

(** A [get] at or after the expiry of what a [set] has just stored. *)
Lemma cache_set_get_expired c key (value : V) timeout t0 now :
  (t0 + seconds (effective_timeout c timeout) <= now)%Z ->
  fst (cache_get (cache_set c key value timeout t0) key now) = None.
Proof.
  intros Hle.
  destruct (cache_set_lookup c key value timeout t0) as [Hc Ht].
  exact (proj1 (cache_get_expired _ key value _ now Hc Ht Hle)).
Qed.

(** C7: whatever the key, the value stored under it and its expiry, a
    [get] at an instant at or after that expiry reports absence and
    removes the entry from both dictionaries of the cache: an expired
    value is never returned. *)
Theorem expired_entry_is_evicted c key (value : V) expiry now :
  cache c !! key = Some value ->
  timeouts c !! key = Some expiry ->
  (expiry <= now)%Z ->
  fst (cache_get c key now) = None /\
  cache (snd (cache_get c key now)) !! key = None /\
  timeouts (snd (cache_get c key now)) !! key = None.
Proof.
  intros Hc Ht Hle. unfold cache_get. rewrite Hc, Ht.
  assert (Hlt : (now <? expiry)%Z = false) by (apply Z.ltb_ge; lia).
  rewrite Hlt. simpl. by rewrite !lookup_delete_eq.
Qed.

End CacheFacts.

Lemma expired_entry_is_evicted_witness :
  let c0 := mkCache (∅ : gmap string nat) ∅ Config.CACHE_TIMEOUT in
  let c := cache_set c0 "k" 7%nat (Some 60%Z) 0 in
  fst (cache_get c "k" 60000000) = None /\
  cache (snd (cache_get c "k" 60000000)) !! "k" = None /\
  timeouts (snd (cache_get c "k" 60000000)) !! "k" = None.
Proof.
  intros c0 c.
  refine (expired_entry_is_evicted c "k" 7%nat 60000000%Z 60000000%Z _ _ _).
  - apply (cache_set_lookup c0).
  - apply (cache_set_lookup c0).
  - lia.
Defined.

(** ** Data acquisition *)

Example endswith_usdt :
  endswith "BTCUSDT" "USDT" = true /\ endswith "USDTBTC" "USDT" = false
  /\ endswith "SDT" "USDT" = false.
Proof. repeat split. Qed.

Example denylisted_names :
  denylisted "1000PEPEUSDT" = true /\ denylisted "MOCKUSDT" = true
  /\ denylisted "BTCTESTUSDT" = true /\ denylisted "XDEMOUSDT" = true
  /\ denylisted "BTCUSDT" = false.
Proof. repeat split. Qed.

Lemma get_all_futures_symbols_filter (d : response) :
  retCode d = 0%Z ->
  get_all_futures_symbols (Some d) = List.filter accepted (listed_symbols d).
Proof.
  intros H0. unfold get_all_futures_symbols, listed_symbols.
  rewrite H0. simpl.
  induction (result_list d) as [|i l IH]; [reflexivity|].
  cbn. destruct (symbol i) as [s|]; cbn; [|exact IH].
  destruct (accepted s); cbn; now rewrite <- IH.
Qed.

Lemma get_all_futures_symbols_accepted (data : option response) (s : string) :
  In s (get_all_futures_symbols data) -> accepted s = true.
Proof.
  destruct data as [d|]; [|intros []].
  destruct (retCode d =? 0)%Z eqn:E.
  - apply Z.eqb_eq in E. rewrite (get_all_futures_symbols_filter d E).
    intros H. now apply filter_In in H.
  - unfold get_all_futures_symbols. rewrite E. intros [].
Qed.

Lemma get_all_futures_symbols_NoDup (d : response) :
  List.NoDup (listed_symbols d) ->
  List.NoDup (get_all_futures_symbols (Some d)).
Proof.
  intros Hnd. destruct (retCode d =? 0)%Z eqn:E.
  - apply Z.eqb_eq in E. rewrite (get_all_futures_symbols_filter d E).
    now apply List.NoDup_filter.
  - unfold get_all_futures_symbols. rewrite E. constructor.
Qed.

(** C6, as the code has it: every symbol that [get_all_futures_symbols]
    returns ends with USDT and matches no denylisted pattern (prefix
    1000, 10000, 100000, 1000000 or MOCK, or TEST or DEMO anywhere in the
    name); the list is not deduplicated: it names a symbol as often as the
    upstream list does, so it is free of duplicates when the upstream list
    is. *)
Theorem listed_symbols_are_filtered (data : option response) :
  Forall (fun s =>
            endswith s "USDT" = true /\
            startswith s "1000" = false /\ startswith s "10000" = false /\
            startswith s "100000" = false /\ startswith s "1000000" = false /\
            startswith s "MOCK" = false /\
            contains "TEST" s = false /\ contains "DEMO" s = false)
         (get_all_futures_symbols data) /\
  (forall d, data = Some d -> List.NoDup (listed_symbols d) ->
             List.NoDup (get_all_futures_symbols data)).
Proof.
  split.
  - apply List.Forall_forall. intros s Hs.
    apply get_all_futures_symbols_accepted in Hs.
    unfold accepted, denylisted in Hs.
    repeat (apply andb_prop in Hs; destruct Hs as [Hs ?]).
    repeat match goal with
           | H : negb _ = true |- _ => apply negb_true_iff in H
           | H : (_ || _)%bool = false |- _ =>
               apply orb_false_elim in H; destruct H
           end.
    repeat split; assumption.
  - intros d -> Hnd. now apply get_all_futures_symbols_NoDup.
Qed.

Lemma listed_symbols_are_filtered_witness :
  List.NoDup (get_all_futures_symbols
           (Some (mkResponse 0 [mkInstrument (Some "BTCUSDT");
                                mkInstrument (Some "1000PEPEUSDT");
                                mkInstrument None;
                                mkInstrument (Some "ETHUSDT")]))).
Proof.
  refine (proj2 (listed_symbols_are_filtered _) _ eq_refl _).
  repeat constructor; simpl; intuition discriminate.
Defined.

(** The claim of C6 fails on a listing that names a symbol twice: both
    occurrences are returned. *)
Lemma duplicate_symbol_is_returned_twice :
  get_all_futures_symbols (Some repeated_listing)
    = ["BTCUSDT"; "ETHUSDT"; "BTCUSDT"]%string
  /\ ~ List.NoDup (get_all_futures_symbols (Some repeated_listing)).
Proof.
  split; [reflexivity|].
  intros H. inversion H as [|x l Hin _]; subst.
  apply Hin. simpl. auto.
Qed.

Lemma process_symbol_data_some (u : upstream) (s : string) (fd : future_data) :
  process_symbol_data u s = Some fd <->
  exists df p,
    get_klines_data u s = Some df /\ (50 < List.length df)%nat /\
    get_current_price u s = Some p /\ ~ p == 0 /\ fd = mkFuture s df p.
Proof.
  unfold process_symbol_data. split.
  - destruct (get_klines_data u s) as [df|]; [|discriminate].
    destruct (50 <? List.length df)%nat eqn:Hlen; [|discriminate].
    destruct (get_current_price u s) as [p|]; [|discriminate].
    destruct (Qeq_bool p 0) eqn:Hp; [discriminate|].
    intros [= <-]. exists df, p. repeat split.
    + now apply Nat.ltb_lt.
    + now apply Qeq_bool_neq.
  - intros (df & p & -> & Hlen & -> & Hp & ->).
    apply Nat.ltb_lt in Hlen. rewrite Hlen.
    destruct (Qeq_bool p 0) eqn:E; [|reflexivity].
    apply Qeq_bool_iff in E. contradiction.
Qed.

(** Which symbols a batch returns: those whose frame has more than 50
    rows and whose price is a non-zero number, in whatever order the
    tasks complete. *)
Lemma get_all_futures_data_symbols (u : upstream)
    (symbols completed : list string) (s : string) :
  Permutation completed symbols ->
  In s (List.map fd_symbol (get_all_futures_data u symbols completed)) <->
  In s symbols /\
  exists df p,
    get_klines_data u s = Some df /\ (50 < List.length df)%nat /\
    get_current_price u s = Some p /\ ~ p == 0.
Proof.
  intros Hperm. unfold get_all_futures_data.
  destruct symbols as [|s0 symbols'] eqn:Hsym.
  { simpl. split; [intros []|intros [[] _]]. }
  rewrite <- Hsym in *. clear Hsym s0 symbols'.
  rewrite in_map_iff. split.
  - intros (fd & <- & Hin).
    apply list_elem_of_In, list_elem_of_omap in Hin.
    destruct Hin as (x & Hx & Hfd).
    apply process_symbol_data_some in Hfd.
    destruct Hfd as (df & p & Hk & Hlen & Hp & Hnz & ->). simpl.
    split.
    + apply list_elem_of_In in Hx.
      now apply (Permutation_in _ Hperm).
    + now exists df, p.
  - intros (Hin & df & p & Hk & Hlen & Hp & Hnz).
    exists (mkFuture s df p). split; [reflexivity|].
    apply list_elem_of_In, list_elem_of_omap. exists s. split.
    + apply list_elem_of_In.
      now apply (Permutation_in _ (Permutation_sym Hperm)).
    + apply process_symbol_data_some. now exists df, p.
Qed.

(** C5, at the boundary: a symbol whose frame has exactly 50 rows and
    whose price fetch succeeded is dropped from the batch, although 50
    rows are "at least 50 points" and [analyze_symbol] would accept the
    frame ([len(data) < 50] is false). *)
Theorem fifty_row_frame_is_dropped :
  let df := repeat (flat_candle 100 1000) 50 in
  List.length df = 50%nat /\
  get_all_futures_data (constant_upstream df 100)
    ["BTCUSDT"%string] ["BTCUSDT"%string] = [] /\
  (List.length df <? 50)%nat = false.
Proof. repeat split. Qed.

(** One row more and the symbol is returned. *)
Example fifty_one_row_frame_is_kept :
  let df := repeat (flat_candle 100 1000) 51 in
  List.map fd_symbol
    (get_all_futures_data (constant_upstream df 100)
       ["BTCUSDT"%string] ["BTCUSDT"%string]) = ["BTCUSDT"%string].
Proof. reflexivity. Qed.

(** ** The final sort *)

Lemma string_ltb_asym (s t : string) :
  String.ltb s t = true -> String.ltb t s = false.
Proof.
  unfold String.ltb. rewrite (String.compare_antisym t s).
  destruct (String.compare s t); simpl; congruence.
Qed.


Section SortDesc.

Context {A : Type} (key : A -> Q * string).






End SortDesc.


(** The labels in the order that the sort uses, and in severity order. *)
Example label_order_is_textual :
  String.ltb (strength_label MODERATE) (strength_label STRONG) = true /\
  String.ltb (strength_label STRONG) (strength_label WEAK) = true /\
  (strength_rank WEAK < strength_rank MODERATE < strength_rank STRONG)%nat.
Proof. repeat split; simpl; lia. Qed.



(** ** The indicator engine on short series *)

Lemma mean_cons (x : Q) (l : list Q) :
  mean (x :: l) = Some (qsum (x :: l) / qlen (x :: l)).
Proof. reflexivity. Qed.

(** C4: on a series shorter than the period every indicator returns its
    fallback value: SMA the mean of the points there are (0.0 when there
    is none), Z-score 0, RSI 50, MACD (0, 0, 0) for a series shorter than
    the slow span, Bollinger (0, 0, 0), and, for a close series shorter
    than the period, Stochastic (50, 50) and ATR 0. *)
Theorem short_series_fallbacks (fsqrt : Q -> Q) (p : nat)
    (prices high low close : list Q) (std_dev : Q) (fast signal : nat) :
  (List.length prices < p)%nat ->
  (List.length close < p)%nat ->
  calculate_sma prices p
    = match prices with
      | [] => Some 0
      | _ => Some (qsum prices / qlen prices)
      end /\
  calculate_z_score fsqrt prices p = Some 0 /\
  calculate_rsi prices p = Some 50 /\
  calculate_macd prices fast p signal = Some (0, 0, 0) /\
  calculate_bollinger_bands fsqrt prices p std_dev
    = (Some 0, Some 0, Some 0) /\
  calculate_stochastic high low close p = (Some 50, Some 50) /\
  calculate_atr high low close p = Some 0.
Proof.
  intros Hp Hc.
  assert (E : (List.length prices <? p)%nat = true) by now apply Nat.ltb_lt.
  assert (E1 : (List.length prices <? p + 1)%nat = true)
    by (apply Nat.ltb_lt; lia).
  assert (Ec : (List.length close <? p)%nat = true) by now apply Nat.ltb_lt.
  unfold calculate_sma, calculate_z_score, calculate_rsi, calculate_macd,
    calculate_bollinger_bands, calculate_stochastic, calculate_atr.
  rewrite E, E1, Ec. repeat split.
  destruct prices as [|x l]; reflexivity.
Qed.

Lemma short_series_fallbacks_witness :
  calculate_sma [10; 20] 5 = Some ((10 + (20 + 0)) / 2) /\
  calculate_z_score sqrt_lower [10; 20] 5 = Some 0 /\
  calculate_rsi [10; 20] 5 = Some 50 /\
  calculate_macd [10; 20] 12 5 9 = Some (0, 0, 0) /\
  calculate_bollinger_bands sqrt_lower [10; 20] 5 2 = (Some 0, Some 0, Some 0) /\
  calculate_stochastic [11; 21] [9; 19] [10; 20] 5 = (Some 50, Some 50) /\
  calculate_atr [11; 21] [9; 19] [10; 20] 5 = Some 0.
Proof.
  apply (short_series_fallbacks sqrt_lower 5 [10; 20] [11; 21] [9; 19]
           [10; 20] 2 12 9); simpl; lia.
Defined.

(** The fallbacks are not the general behaviour: on a full window the
    indicators depend on the data. *)
Example full_window_values :
  calculate_sma [1; 2; 3; 4] 2 = Some ((3 + (4 + 0)) / 2) /\
  calculate_rsi [1; 2; 4] 2 = Some 100 /\
  (exists r, calculate_rsi [4; 2; 4] 2 = Some r /\ r == 50) /\
  (exists z, calculate_z_score sqrt_lower [1; 3] 2 = Some z /\ z == 1 # 1) /\
  (exists k d, calculate_stochastic [2; 4; 6; 8] [0; 1; 2; 3] [1; 2; 5; 7] 2
               = (Some k, Some d) /\ k == 250 # 3) /\
  (exists a, calculate_atr [2; 4; 6] [0; 1; 2] [1; 2; 5] 2 = Some a
             /\ a == 7 # 2).
Proof.
  repeat split.
  - eexists. split; [vm_compute; reflexivity|reflexivity].
  - eexists. split; [vm_compute; reflexivity|reflexivity].
  - eexists. eexists. split; [vm_compute; reflexivity|reflexivity].
  - eexists. split; [vm_compute; reflexivity|reflexivity].
Qed.

(** ** The indicator engine on a flat series *)

Lemma skipn_repeat {A} (x : A) (n k : nat) :
  skipn k (repeat x n) = repeat x (n - k).
Proof.
  revert k. induction n as [|n IH]; intros [|k]; simpl; auto.
Qed.

Lemma firstn_repeat_all {A} (x : A) (n : nat) :
  firstn n (repeat x n) = repeat x n.
Proof. induction n as [|n IH]; simpl; congruence. Qed.

Lemma removelast_repeat {A} (x : A) (n : nat) :
  removelast (repeat x (S n)) = repeat x n.
Proof.
  induction n as [|n IH]; [reflexivity|].
  change (repeat x (S (S n))) with (x :: repeat x (S n)).
  change (removelast (x :: repeat x (S n)))
    with (x :: removelast (repeat x (S n))).
  now rewrite IH.
Qed.

Lemma zip_with_repeat {A B C} (f : A -> B -> C) (a : A) (b : B) (n : nat) :
  zip_with f (repeat a n) (repeat b n) = repeat (f a b) n.
Proof. induction n as [|n IH]; simpl; congruence. Qed.

Lemma window_repeat {A} (x : A) (w n : nat) :
  (1 <= w <= n)%nat -> window w (n - 1) (repeat x n) = repeat x w.
Proof.
  intros Hw. unfold window. rewrite skipn_repeat.
  replace (n - (S (n - 1) - w))%nat with w by lia.
  apply firstn_repeat_all.
Qed.

Lemma finite_values_series (l : list Q) : finite_values (series l) = Some l.
Proof.
  induction l as [|x l IH]; [reflexivity|].
  change (series (x :: l)) with (Some x :: series l).
  cbn [finite_values]. now rewrite IH.
Qed.

Lemma series_repeat (c : Q) (n : nat) : series (repeat c n) = repeat (Some c) n.
Proof. apply map_repeat. Qed.

(** The last value of a rolling aggregate. *)
Lemma iloc_last_rolling (agg : list Q -> option Q) (w : nat)
    (s : list (option Q)) :
  s <> [] ->
  iloc_last (rolling agg w s) =
    if (w =? 0)%nat || (List.length s <? w)%nat then None
    else match finite_values (window w (List.length s - 1) s) with
         | Some vs => agg vs
         | None => None
         end.
Proof.
  intros Hs. unfold rolling, iloc_last.
  destruct (List.length s) as [|k] eqn:Hlen.
  { destruct s; [contradiction|discriminate]. }
  rewrite seq_S, List.map_app. simpl. rewrite last_last.
  now replace (k - 0)%nat with k by lia.
Qed.

Lemma rolling_last_flat (agg : list Q -> option Q) (w n : nat) (x : Q) :
  (1 <= w <= n)%nat ->
  iloc_last (rolling agg w (repeat (Some x) n)) = agg (repeat x w).
Proof.
  intros Hw. rewrite iloc_last_rolling.
  - rewrite repeat_length.
    assert (E0 : (w =? 0)%nat = false) by (apply Nat.eqb_neq; lia).
    assert (E1 : (n <? w)%nat = false) by (apply Nat.ltb_ge; lia).
    rewrite E0, E1. simpl.
    rewrite (window_repeat _ w n Hw), <- series_repeat.
    now rewrite finite_values_series.
  - destruct n; [lia|discriminate].
Qed.

Lemma qsum_repeat (c : Q) (n : nat) :
  qsum (repeat c n) == inject_Z (Z.of_nat n) * c.
Proof.
  induction n as [|n IH].
  - simpl. ring.
  - change (qsum (repeat c (S n))) with (c + qsum (repeat c n)).
    rewrite IH, Nat2Z.inj_succ. unfold Z.succ.
    rewrite inject_Z_plus. ring.
Qed.

Lemma qlen_repeat (c : Q) (n : nat) : qlen (repeat c n) = inject_Z (Z.of_nat n).
Proof. unfold qlen. now rewrite repeat_length. Qed.

Lemma inject_Z_of_nat_pos (n : nat) : (1 <= n)%nat -> 0 < inject_Z (Z.of_nat n).
Proof.
  intros Hn. change 0 with (inject_Z 0). rewrite <- Zlt_Qlt. lia.
Qed.

(** The mean of a flat window is its value. *)
Lemma mean_repeat (c : Q) (n : nat) :
  (1 <= n)%nat -> exists m, mean (repeat c n) = Some m /\ m == c.
Proof.
  intros Hn. destruct n as [|n]; [lia|].
  eexists. split; [reflexivity|].
  rewrite qsum_repeat, qlen_repeat.
  pose proof (inject_Z_of_nat_pos (S n) Hn). field. lra.
Qed.

Section FlatSeries.

Variable fsqrt : Q -> Q.
Hypothesis fsqrt_0 : forall x, x == 0 -> fsqrt x == 0.

(** The standard deviation of a flat window is zero. *)
Lemma std_repeat (c : Q) (n : nat) :
  (2 <= n)%nat -> exists sd, std fsqrt (repeat c n) = Some sd /\ sd == 0.
Proof.
  intros Hn. unfold std. rewrite repeat_length.
  assert (E : (n <? 2)%nat = false) by (apply Nat.ltb_ge; lia).
  rewrite E.
  destruct (mean_repeat c n ltac:(lia)) as (m & -> & Hm).
  eexists. split; [reflexivity|].
  apply fsqrt_0. rewrite map_repeat, qsum_repeat.
  unfold Qdiv. rewrite Hm. ring.
Qed.

Lemma calculate_z_score_flat (c : Q) (n p : nat) :
  (2 <= p <= n)%nat -> calculate_z_score fsqrt (repeat c n) p = Some 0.
Proof.
  intros Hp. unfold calculate_z_score. rewrite repeat_length.
  assert (E : (n <? p)%nat = false) by (apply Nat.ltb_ge; lia).
  rewrite E, series_repeat, rolling_last_flat by lia.
  destruct (std_repeat c p ltac:(lia)) as (sd & -> & Hsd).
  apply Qeq_bool_iff in Hsd. now rewrite Hsd.
Qed.

End FlatSeries.

Lemma series_op_same_length (f : option Q -> option Q -> option Q)
    (a b : list (option Q)) :
  List.length a = List.length b -> series_op f a b = zip_with f a b.
Proof.
  intros H. unfold series_op, pad.
  rewrite H, Nat.max_id, Nat.sub_diag. simpl. now rewrite !app_nil_r.
Qed.

Lemma shift_repeat (x : option Q) (n : nat) :
  shift (repeat x (S n)) = None :: repeat x n.
Proof. unfold shift. now rewrite removelast_repeat. Qed.

Lemma diff_flat (c : Q) (n : nat) :
  diff (repeat (Some c) (S n)) = None :: repeat (Some (c - c)) n.
Proof.
  unfold diff. rewrite shift_repeat, series_op_same_length.
  - change (repeat (Some c) (S n)) with (Some c :: repeat (Some c) n).
    cbn [zip_with]. now rewrite zip_with_repeat.
  - simpl. now rewrite !repeat_length.
Qed.

Lemma where_flat (cond : Q -> bool) (c : Q) (n : nat) :
  cond (c - c) = false ->
  where_ cond 0 (None :: repeat (Some (c - c)) n) = repeat (Some 0) (S n).
Proof.
  intros Hc. unfold where_. simpl. rewrite map_repeat. now rewrite Hc.
Qed.

(** On a flat series there is no loss, and [calculate_rsi] answers 100. *)
Lemma calculate_rsi_flat (c : Q) (n p : nat) :
  (1 <= p)%nat -> (p + 1 <= n)%nat -> calculate_rsi (repeat c n) p = Some 100.
Proof.
  intros Hp Hn. unfold calculate_rsi. rewrite repeat_length.
  assert (E : (n <? p + 1)%nat = false) by (apply Nat.ltb_ge; lia).
  rewrite E, series_repeat.
  destruct n as [|n]; [lia|].
  rewrite diff_flat.
  rewrite (where_flat (fun d => Qltb d 0)) by (apply Qltb_ge; lra).
  unfold neg. rewrite map_repeat. simpl option_map.
  rewrite rolling_last_flat by lia.
  destruct (mean_repeat (- 0) p Hp) as (m & -> & Hm).
  assert (E0 : Qeq_bool m 0 = true) by (apply Qeq_bool_iff; lra).
  now rewrite E0.
Qed.

Lemma ewm_alpha_le_1 (span : nat) : (1 <= span)%nat -> 0 <= 1 - ewm_alpha span.
Proof.
  intros Hs. unfold ewm_alpha.
  assert (H1 : 1 <= inject_Z (Z.of_nat span)).
  { change 1 with (inject_Z 1). rewrite <- Zle_Qle. lia. }
  assert (2 / (inject_Z (Z.of_nat span) + 1) <= 1); [|lra].
  apply Qle_shift_div_r; lra.
Qed.

Lemma ewm_from_length (a : Q) (xs : list Q) (num den : Q) :
  List.length (ewm_from a num den xs) = List.length xs.
Proof.
  revert num den. induction xs as [|x xs IH]; intros; simpl; auto.
Qed.

(** The weighted mean of a flat series is its value. *)
Lemma ewm_from_flat (a c : Q) (n : nat) (num den : Q) :
  0 <= 1 - a -> num == c * den -> 0 <= den ->
  Forall (fun y => y == c) (ewm_from a num den (repeat c n)).
Proof.
  intros Ha. revert num den.
  induction n as [|n IH]; intros num den Hnum Hden; simpl; constructor.
  - assert (0 <= (1 - a) * den) by (apply Qmult_le_0_compat; lra).
    rewrite Hnum. field. lra.
  - apply IH.
    + rewrite Hnum. ring.
    + assert (0 <= (1 - a) * den) by (apply Qmult_le_0_compat; lra). lra.
Qed.

Lemma ewm_from_zero (a : Q) (xs : list Q) (num den : Q) :
  0 <= 1 - a -> Forall (fun x => x == 0) xs -> num == 0 -> 0 <= den ->
  Forall (fun y => y == 0) (ewm_from a num den xs).
Proof.
  intros Ha Hxs. revert num den.
  induction Hxs as [|x xs Hx Hxs IH]; intros num den Hnum Hden; simpl;
    constructor.
  - assert (0 <= (1 - a) * den) by (apply Qmult_le_0_compat; lra).
    rewrite Hx, Hnum. field. lra.
  - apply IH.
    + rewrite Hx, Hnum. ring.
    + assert (0 <= (1 - a) * den) by (apply Qmult_le_0_compat; lra). lra.
Qed.

Lemma zip_with_length {A B C} (f : A -> B -> C) (l : list A) (r : list B) :
  List.length l = List.length r ->
  List.length (zip_with f l r) = List.length l.
Proof.
  revert r. induction l as [|a l IH]; intros [|b r] H; simpl in *;
    try discriminate; auto.
Qed.

Lemma zip_with_minus_eq (c : Q) (l r : list Q) :
  Forall (fun y => y == c) l -> Forall (fun y => y == c) r ->
  Forall (fun y => y == 0) (zip_with Qminus l r).
Proof.
  intros Hl. revert r.
  induction Hl as [|x l Hx Hl IH]; intros r Hr; simpl; [constructor|].
  destruct Hr as [|y r Hy Hr]; constructor.
  - rewrite Hx, Hy. ring.
  - now apply IH.
Qed.

Lemma iloc_last_series (P : Q -> Prop) (l : list Q) :
  l <> [] -> Forall P l -> exists x, iloc_last (series l) = Some x /\ P x.
Proof.
  intros Hne Hl. unfold iloc_last, series.
  destruct (exists_last Hne) as (l' & x & ->).
  exists x. rewrite List.map_app. simpl. rewrite last_last.
  split; [reflexivity|].
  apply List.Forall_app in Hl. destruct Hl as [_ Hx].
  now inversion Hx.
Qed.

Lemma length_nonempty {A} (l : list A) : (1 <= List.length l)%nat -> l <> [].
Proof. destruct l; simpl; [lia|discriminate]. Qed.

(** On a flat series the three MACD values vanish. *)
Lemma calculate_macd_flat (c : Q) (n fast slow signal : nat) :
  (1 <= fast)%nat -> (1 <= slow <= n)%nat -> (1 <= signal)%nat ->
  exists m s h,
    calculate_macd (repeat c n) fast slow signal = Some (m, s, h) /\
    m == 0 /\ s == 0 /\ h == 0.
Proof.
  intros Hf Hs Hg. unfold calculate_macd. rewrite repeat_length.
  assert (E : (n <? slow)%nat = false) by (apply Nat.ltb_ge; lia).
  assert (Ef : (fast =? 0)%nat = false) by (apply Nat.eqb_neq; lia).
  assert (Es : (slow =? 0)%nat = false) by (apply Nat.eqb_neq; lia).
  assert (Eg : (signal =? 0)%nat = false) by (apply Nat.eqb_neq; lia).
  rewrite E, Ef, Es, Eg. simpl orb. cbv iota.
  set (ema_fast := ewm_mean fast (repeat c n)).
  set (ema_slow := ewm_mean slow (repeat c n)).
  set (macd := zip_with Qminus ema_fast ema_slow).
  set (sig := ewm_mean signal macd).
  set (hist := zip_with Qminus macd sig).
  assert (Hfast : Forall (fun y => y == c) ema_fast).
  { apply ewm_from_flat; [now apply ewm_alpha_le_1|ring|lra]. }
  assert (Hslow : Forall (fun y => y == c) ema_slow).
  { apply ewm_from_flat; [now apply ewm_alpha_le_1|ring|lra]. }
  assert (Hmacd : Forall (fun y => y == 0) macd)
    by now apply (zip_with_minus_eq c).
  assert (Hsig : Forall (fun y => y == 0) sig).
  { apply ewm_from_zero; [now apply ewm_alpha_le_1|assumption|reflexivity|lra]. }
  assert (Hhist : Forall (fun y => y == 0) hist)
    by now apply (zip_with_minus_eq 0).
  assert (Lmacd : List.length macd = n).
  { unfold macd, ema_fast, ema_slow, ewm_mean.
    rewrite zip_with_length; rewrite !ewm_from_length, ?repeat_length;
      reflexivity. }
  assert (Lsig : List.length sig = n).
  { unfold sig, ewm_mean. now rewrite ewm_from_length. }
  assert (Lhist : List.length hist = n).
  { unfold hist. rewrite zip_with_length; congruence. }
  assert (Nmacd : macd <> []) by (apply length_nonempty; lia).
  assert (Nsig : sig <> []) by (apply length_nonempty; lia).
  assert (Nhist : hist <> []) by (apply length_nonempty; lia).
  destruct (iloc_last_series _ macd Nmacd Hmacd) as (m & -> & Hm).
  destruct (iloc_last_series _ sig Nsig Hsig) as (s & -> & Hs').
  destruct (iloc_last_series _ hist Nhist Hhist) as (h & -> & Hh).
  now exists m, s, h.
Qed.

Lemma calculate_sma_flat (c : Q) (n p : nat) :
  (1 <= p <= n)%nat ->
  exists m, calculate_sma (repeat c n) p = Some m /\ m == c.
Proof.
  intros Hp. unfold calculate_sma. rewrite repeat_length.
  assert (E : (n <? p)%nat = false) by (apply Nat.ltb_ge; lia).
  rewrite E, series_repeat, rolling_last_flat by lia.
  apply mean_repeat. lia.
Qed.

Lemma calculate_volume_sma_flat (v : Q) (n p : nat) :
  (1 <= p <= n)%nat ->
  exists m, calculate_volume_sma (repeat v n) p = Some m /\ m == v.
Proof. apply calculate_sma_flat. Qed.

Lemma last_repeat (x d : Q) (n : nat) : List.last (repeat x (S n)) d = x.
Proof.
  induction n as [|n IH]; [reflexivity|].
  change (repeat x (S (S n))) with (x :: repeat x (S n)).
  change (List.last (x :: repeat x (S n)) d)
    with (List.last (repeat x (S n)) d).
  exact IH.
Qed.

Lemma map_flat {A} (f : A -> Q) (c : Q) (l : list A) :
  Forall (fun k => f k = c) l -> List.map f l = repeat c (List.length l).
Proof.
  induction 1 as [|k l Hk Hl IH]; simpl; [reflexivity|].
  now rewrite Hk, IH.
Qed.

(** The classifier on the indicator values of a flat series: a z-score
    of 0, an RSI of 100, no MACD histogram and an average volume. *)
Lemma generate_signal_flat (h vr : Q) :
  h == 0 -> vr == 1 ->
  exists sg,
    generate_signal 0 100 h vr = Some sg /\
    sig_direction sg = SELL /\ sig_strength sg = STRONG /\
    sig_precision sg == 70.
Proof.
  intros Hh Hv.
  assert (Hd : signal_direction 0 100 h = Some SELL) by reflexivity.
  rewrite (generate_signal_some _ _ _ _ _ Hd).
  eexists. split; [reflexivity|]. simpl.
  assert (Ha : Qabs h == 0) by (rewrite Hh; reflexivity).
  repeat split.
  - unfold signal_strength.
    assert (E1 : Qgtb h 0 = false) by (apply Qgtb_le; lra).
    assert (E2 : Qltb h 0 = false) by (apply Qltb_ge; lra).
    assert (E3 : Qgtb vr 1.5 = false) by (apply Qgtb_le; lra).
    rewrite E1, E2, E3. reflexivity.
  - unfold calculate_signal_precision.
    assert (E1 : Qgtb (Qabs h) 0.002 = false) by (apply Qgtb_le; lra).
    assert (E2 : Qgtb (Qabs h) 0.001 = false) by (apply Qgtb_le; lra).
    assert (E3 : Qgtb vr 1.5 = false) by (apply Qgtb_le; lra).
    assert (E4 : Qgtb vr 1.2 = false) by (apply Qgtb_le; lra).
    rewrite E1, E2, E3, E4. vm_compute. reflexivity.
Qed.

Section FlatFrame.

Variable fsqrt : Q -> Q.
Hypothesis fsqrt_0 : forall x, x == 0 -> fsqrt x == 0.

(** The indicators of a frame of 50 rows or more with one close and one
    volume throughout. *)
Lemma indicators_flat (c v : Q) (data : list candle) :
  (50 <= List.length data)%nat ->
  Forall (fun k => close k = c) data ->
  Forall (fun k => volume k = v) data ->
  exists ind,
    indicators fsqrt data = Some ind /\
    z_score ind = 0 /\ rsi ind = 100 /\
    macd_histogram ind == 0 /\ volume_ratio ind == 1.
Proof.
  intros Hn Hc Hv. unfold indicators.
  rewrite (map_flat close c data Hc), (map_flat volume v data Hv).
  set (n := List.length data) in *.
  rewrite (calculate_z_score_flat fsqrt fsqrt_0 c n 20) by lia.
  destruct (calculate_sma_flat c n 50) as (sma & -> & _); [lia|].
  rewrite (calculate_rsi_flat c n 14) by lia.
  destruct (calculate_macd_flat c n 12 26 9) as (ml & ms & mh & -> & _ & _ & Hh);
    [lia..|].
  destruct (calculate_volume_sma_flat v n 20) as (vsma & -> & Hvs); [lia|].
  cbn [mbind option_bind].
  eexists. split; [reflexivity|]. cbn [z_score rsi macd_histogram volume_ratio].
  repeat split; [assumption|].
  destruct n as [|n']; [lia|]. rewrite last_repeat.
  destruct (Qgtb vsma 0) eqn:E; [|reflexivity].
  apply Qgtb_gt in E. rewrite <- Hvs. field. lra.
Qed.

(** C3, as the code has it: for a series of 100 equal closes with a
    constant volume the z-score is 0 and the MACD histogram is 0, but the
    RSI is 100, not 50: the average loss is exactly 0, which
    [calculate_rsi] answers with 100.  An RSI of 100 is above the
    overbought threshold, so the classifier does not return absent: it
    returns a SELL signal of strength STRONG with precision 70, and
    [analyze_symbol] produces a result for the series. *)
Theorem flat_series_gives_strong_sell (c v : Q) (data : list candle)
    (now : Z) (name : string) (current_price : Q) :
  List.length data = 100%nat ->
  Forall (fun k => close k = c /\ volume k = v) data ->
  calculate_z_score fsqrt (List.map close data) 20 = Some 0 /\
  calculate_rsi (List.map close data) 14 = Some 100 /\
  (exists ml ms mh,
     calculate_macd (List.map close data) 12 26 9 = Some (ml, ms, mh) /\
     mh == 0) /\
  (exists ind sg,
     indicators fsqrt data = Some ind /\
     generate_signal (z_score ind) (rsi ind) (macd_histogram ind)
       (volume_ratio ind) = Some sg /\
     sig_direction sg = SELL /\ sig_strength sg = STRONG /\
     sig_precision sg == 70) /\
  (exists r,
     analyze_symbol fsqrt now name data current_price = Some r /\
     r_signal r = SELL /\ r_strength r = STRONG).
Proof.
  intros Hlen Hflat.
  assert (Hc : Forall (fun k => close k = c) data)
    by (eapply List.Forall_impl; [|exact Hflat]; now intros k [? ?]).
  assert (Hv : Forall (fun k => volume k = v) data)
    by (eapply List.Forall_impl; [|exact Hflat]; now intros k [? ?]).
  destruct (indicators_flat c v data ltac:(lia) Hc Hv)
    as (ind & Hind & Hz & Hr & Hh & Hvr).
  destruct (generate_signal_flat _ _ Hh Hvr) as (sg & Hsg & Hd & Hs & Hp).
  rewrite <- Hz, <- Hr in Hsg.
  rewrite (map_flat close c data Hc), Hlen.
  split; [apply (calculate_z_score_flat fsqrt fsqrt_0); lia|].
  split; [apply calculate_rsi_flat; lia|].
  split.
  { destruct (calculate_macd_flat c 100 12 26 9) as (ml & ms & mh & E & _ & _ & H0);
      [lia..|].
    now exists ml, ms, mh. }
  split.
  { now exists ind, sg. }
  unfold analyze_symbol. rewrite Hlen. simpl Nat.ltb. cbv iota.
  rewrite Hind. cbn [mbind option_bind]. rewrite Hsg. cbn [mbind option_bind].
  eexists. split; [reflexivity|]. simpl. now split.
Qed.

End FlatFrame.

Lemma flat_series_gives_strong_sell_witness :
  let data := repeat (flat_candle 100 1000) 100 in
  calculate_rsi (List.map close data) 14 = Some 100 /\
  exists r,
    analyze_symbol sqrt_lower 0 "BTCUSDT" data 100 = Some r /\
    r_signal r = SELL /\ r_strength r = STRONG.
Proof.
  intros data.
  assert (H0 : forall x, x == 0 -> sqrt_lower x == 0).
  { intros x Hx. unfold sqrt_lower.
    rewrite (Qred_complete x 0 Hx). reflexivity. }
  assert (Hlen : List.length data = 100%nat) by reflexivity.
  assert (Hflat : Forall (fun k => close k = 100 /\ volume k = 1000) data).
  { apply List.Forall_forall. intros k Hk.
    apply repeat_spec in Hk. subst k. split; reflexivity. }
  pose proof (flat_series_gives_strong_sell sqrt_lower H0 100 1000 data
                0%Z "BTCUSDT"%string 100 Hlen Hflat) as (_ & Hr & _ & _ & Ha).
  split; assumption.
Defined.

(** The claim of C3 fails on the series of 100 closes of 100 with a
    volume of 1000: its RSI is 100 and a signal is produced. *)
Lemma flat_series_is_not_neutral :
  let data := repeat (flat_candle 100 1000) 100 in
  calculate_rsi (List.map close data) 14 <> Some 50 /\
  generate_signal 0 100 0 1 <> None /\
  analyze_symbol sqrt_lower 0 "BTCUSDT" data 100 <> None.
Proof.
  intros data.
  assert (Hrsi : calculate_rsi (List.map close data) 14 = Some 100).
  { apply (calculate_rsi_flat 100 100 14); lia. }
  split; [rewrite Hrsi; discriminate|].
  split; [vm_compute; discriminate|].
  assert (H0 : forall x, x == 0 -> sqrt_lower x == 0).
  { intros x Hx. unfold sqrt_lower.
    rewrite (Qred_complete x 0 Hx). reflexivity. }
  assert (Hc : Forall (fun k => close k = 100) data).
  { apply List.Forall_forall. intros k Hk.
    apply repeat_spec in Hk. now subst k. }
  assert (Hv : Forall (fun k => volume k = 1000) data).
  { apply List.Forall_forall. intros k Hk.
    apply repeat_spec in Hk. now subst k. }
  destruct (indicators_flat sqrt_lower H0 100 1000 data ltac:(simpl; lia) Hc Hv)
    as (ind & Hind & Hz & Hr & Hh & Hvr).
  destruct (generate_signal_flat _ _ Hh Hvr) as (sg & Hsg & _).
  rewrite <- Hz, <- Hr in Hsg.
  unfold analyze_symbol.
  change (List.length data <? 50)%nat with false. cbv iota.
  rewrite Hind. cbn [mbind option_bind]. rewrite Hsg. discriminate.
Qed.

(** ** The indicators of a frame of 50 rows or more are finite *)

Lemma window_series (w t : nat) (xs : list Q) :
  window w t (series xs) = series (window w t xs).
Proof. unfold window, series. now rewrite skipn_map, firstn_map. Qed.

Lemma window_length {A} (w : nat) (xs : list A) :
  (w <= List.length xs)%nat ->
  List.length (window w (List.length xs - 1) xs) = w.
Proof.
  intros Hw. unfold window. rewrite length_take, length_drop. lia.
Qed.

Lemma window_Forall {A} (P : A -> Prop) (w t : nat) (xs : list A) :
  Forall P xs -> Forall P (window w t xs).
Proof. intros H. unfold window. now apply Forall_take, Forall_drop. Qed.

Lemma series_length (xs : list Q) : List.length (series xs) = List.length xs.
Proof. apply List.length_map. Qed.

Lemma rolling_last_series (agg : list Q -> option Q) (w : nat) (xs : list Q) :
  (1 <= w <= List.length xs)%nat ->
  iloc_last (rolling agg w (series xs))
    = agg (window w (List.length xs - 1) xs).
Proof.
  intros Hw. rewrite iloc_last_rolling.
  - rewrite series_length.
    assert (E0 : (w =? 0)%nat = false) by (apply Nat.eqb_neq; lia).
    assert (E1 : (List.length xs <? w)%nat = false) by (apply Nat.ltb_ge; lia).
    rewrite E0, E1. simpl.
    now rewrite window_series, finite_values_series.
  - apply length_nonempty. rewrite series_length. lia.
Qed.

Lemma mean_some (l : list Q) :
  (1 <= List.length l)%nat -> mean l = Some (qsum l / qlen l).
Proof. destruct l; simpl; [lia|reflexivity]. Qed.

Lemma qsum_nonneg (l : list Q) : Forall (fun x => 0 <= x) l -> 0 <= qsum l.
Proof.
  induction 1 as [|x l Hx Hl IH]; simpl; [lra|]. lra.
Qed.

(** The mean of a full window of non-negative values. *)
Lemma rolling_mean_nonneg (w : nat) (xs : list Q) :
  (1 <= w <= List.length xs)%nat -> Forall (fun x => 0 <= x) xs ->
  exists m, iloc_last (rolling mean w (series xs)) = Some m /\ 0 <= m.
Proof.
  intros Hw Hxs. rewrite rolling_last_series by assumption.
  set (W := window w (List.length xs - 1) xs).
  assert (HW : List.length W = w) by (apply window_length; lia).
  rewrite mean_some by lia.
  eexists. split; [reflexivity|].
  apply Qle_shift_div_l.
  - unfold qlen. rewrite HW. apply inject_Z_of_nat_pos. lia.
  - pose proof (qsum_nonneg W (window_Forall _ _ _ _ Hxs)). lra.
Qed.

Lemma shift_length (s : list (option Q)) :
  List.length (shift s) = List.length s.
Proof.
  destruct s as [|x s]; [reflexivity|].
  unfold shift. cbn [List.length].
  rewrite removelast_firstn_len, length_take. simpl. lia.
Qed.

Lemma diff_length (s : list (option Q)) :
  List.length (diff s) = List.length s.
Proof.
  unfold diff.
  rewrite series_op_same_length by (now rewrite shift_length).
  apply zip_with_length. now rewrite shift_length.
Qed.

(** [where] with a finite replacement leaves no NaN. *)
Lemma where_series (cond : Q -> bool) (o : Q) (s : list (option Q)) :
  where_ cond o s
    = series (List.map (fun v => match v with
                                 | Some x => if cond x then x else o
                                 | None => o
                                 end) s).
Proof.
  unfold where_, series. rewrite List.map_map.
  apply List.map_ext. intros [x|]; [destruct (cond x)|]; reflexivity.
Qed.

Lemma neg_series (l : list Q) : neg (series l) = series (List.map Qopp l).
Proof. unfold neg, series. now rewrite !List.map_map. Qed.

Lemma calculate_rsi_defined (prices : list Q) (p : nat) :
  (1 <= p)%nat -> is_Some (calculate_rsi prices p).
Proof.
  intros Hp. unfold calculate_rsi.
  destruct (List.length prices <? p + 1)%nat eqn:E; [eauto|].
  apply Nat.ltb_ge in E.
  set (delta := diff (series prices)).
  assert (Hlen : List.length delta = List.length prices)
    by (unfold delta; now rewrite diff_length, series_length).
  rewrite !where_series, neg_series.
  set (G := List.map (fun v : option Q =>
                        match v with
                        | Some x => if Qgtb x 0 then x else 0
                        | None => 0
                        end) delta).
  set (L := List.map Qopp
              (List.map (fun v : option Q =>
                           match v with
                           | Some x => if Qltb x 0 then x else 0
                           | None => 0
                           end) delta)).
  assert (HG : Forall (fun x => 0 <= x) G).
  { apply List.Forall_forall. intros x Hx. apply in_map_iff in Hx.
    destruct Hx as ([d|] & <- & _); [|lra].
    destruct (Qgtb d 0) eqn:Ed; [apply Qgtb_gt in Ed|]; lra. }
  assert (HL : Forall (fun x => 0 <= x) L).
  { apply List.Forall_forall. intros x Hx. apply in_map_iff in Hx.
    destruct Hx as (y & <- & Hy). apply in_map_iff in Hy.
    destruct Hy as ([d|] & <- & _); [|lra].
    destruct (Qltb d 0) eqn:Ed; [apply Qltb_lt in Ed|]; lra. }
  assert (LG : List.length G = List.length prices)
    by (unfold G; now rewrite List.length_map).
  assert (LL : List.length L = List.length prices)
    by (unfold L; now rewrite !List.length_map).
  destruct (rolling_mean_nonneg p G ltac:(lia) HG) as (g & -> & Hg).
  destruct (rolling_mean_nonneg p L ltac:(lia) HL) as (l & -> & Hl).
  destruct (Qeq_bool l 0) eqn:El; [eauto|].
  pose proof (Qeq_bool_neq _ _ El) as Hl0.
  unfold fdiv at 2. rewrite El.
  assert (Hrs : 0 <= g / l) by (apply Qle_shift_div_l; lra).
  cbn [fadd lift2]. unfold fdiv.
  assert (E1 : Qeq_bool (1 + g / l) 0 = false).
  { destruct (Qeq_bool (1 + g / l) 0) eqn:E1; [|reflexivity].
    apply Qeq_bool_iff in E1. lra. }
  rewrite E1. cbn [fsub lift2]. eauto.
Qed.

Lemma iloc_last_series_some (l : list Q) :
  (1 <= List.length l)%nat -> is_Some (iloc_last (series l)).
Proof.
  intros Hl.
  destruct (iloc_last_series (fun _ => True) l (length_nonempty l Hl))
    as (x & Hx & _).
  - apply List.Forall_forall. auto.
  - rewrite Hx. eauto.
Qed.

Lemma calculate_sma_defined (prices : list Q) (p : nat) :
  (1 <= p)%nat -> is_Some (calculate_sma prices p).
Proof.
  intros Hp. unfold calculate_sma.
  destruct (List.length prices <? p)%nat eqn:E.
  - destruct (0 <? List.length prices)%nat eqn:E0; [|eauto].
    apply Nat.ltb_lt in E0. rewrite mean_some by lia. eauto.
  - apply Nat.ltb_ge in E. rewrite rolling_last_series by lia.
    rewrite mean_some; [eauto|]. rewrite window_length; lia.
Qed.

Lemma calculate_z_score_defined (fsqrt : Q -> Q) (prices : list Q) (p : nat) :
  (2 <= p)%nat -> is_Some (calculate_z_score fsqrt prices p).
Proof.
  intros Hp. unfold calculate_z_score.
  destruct (List.length prices <? p)%nat eqn:E; [eauto|].
  apply Nat.ltb_ge in E. rewrite !rolling_last_series by lia.
  set (W := window p (List.length prices - 1) prices).
  assert (HW : List.length W = p) by (apply window_length; lia).
  unfold std. rewrite HW.
  assert (E2 : (p <? 2)%nat = false) by (apply Nat.ltb_ge; lia).
  rewrite E2, mean_some by lia.
  destruct (Qeq_bool _ 0) eqn:Esd; [eauto|].
  destruct (iloc_last_series_some prices ltac:(lia)) as (x & ->).
  cbn [fsub lift2]. unfold fdiv. rewrite Esd. eauto.
Qed.

Lemma calculate_macd_defined (prices : list Q) (fast slow signal : nat) :
  (1 <= fast)%nat -> (1 <= slow)%nat -> (1 <= signal)%nat ->
  is_Some (calculate_macd prices fast slow signal).
Proof.
  intros Hf Hs Hg. unfold calculate_macd.
  destruct (List.length prices <? slow)%nat eqn:E; [eauto|].
  apply Nat.ltb_ge in E.
  assert (Ef : (fast =? 0)%nat = false) by (apply Nat.eqb_neq; lia).
  assert (Es : (slow =? 0)%nat = false) by (apply Nat.eqb_neq; lia).
  assert (Eg : (signal =? 0)%nat = false) by (apply Nat.eqb_neq; lia).
  rewrite Ef, Es, Eg. simpl orb. cbv iota.
  set (macd := zip_with Qminus (ewm_mean fast prices) (ewm_mean slow prices)).
  set (sig := ewm_mean signal macd).
  set (hist := zip_with Qminus macd sig).
  assert (Lmacd : List.length macd = List.length prices).
  { unfold macd, ewm_mean.
    rewrite zip_with_length; rewrite !ewm_from_length; reflexivity. }
  assert (Lsig : List.length sig = List.length prices).
  { unfold sig, ewm_mean. now rewrite ewm_from_length. }
  assert (Lhist : List.length hist = List.length prices).
  { unfold hist. rewrite zip_with_length; congruence. }
  destruct (iloc_last_series_some macd ltac:(lia)) as (m & ->).
  destruct (iloc_last_series_some sig ltac:(lia)) as (s & ->).
  destruct (iloc_last_series_some hist ltac:(lia)) as (h & ->).
  eauto.
Qed.

(** Every frame yields finite indicators: [analyze_symbol] refuses no
    frame of 50 rows or more for want of an indicator. *)
Lemma indicators_defined (fsqrt : Q -> Q) (data : list candle) :
  is_Some (indicators fsqrt data).
Proof.
  unfold indicators.
  destruct (calculate_z_score_defined fsqrt (List.map close data) 20)
    as (z & ->); [lia|].
  destruct (calculate_sma_defined (List.map close data) 50) as (sma & ->);
    [lia|].
  destruct (calculate_rsi_defined (List.map close data) 14) as (r & ->);
    [lia|].
  destruct (calculate_macd_defined (List.map close data) 12 26 9)
    as ([[ml ms] mh] & ->); [lia..|].
  destruct (calculate_sma_defined (List.map volume data) 20) as (vs & Hvs);
    [lia|].
  unfold calculate_volume_sma. unfold calculate_sma in Hvs. rewrite Hvs.
  cbn [mbind option_bind]. eauto.
Qed.

(** * Further properties *)

(** ** The classifier *)

Lemma signal_direction_none (z r m : Q) :
  signal_direction z r m = None <->
  (-2 <= z <= 2) /\ (30 <= r <= 70) /\ (-0.001 <= m <= 0.001).
Proof.
  unfold signal_direction, Config.Z_SCORE_THRESHOLD, Config.RSI_OVERBOUGHT,
    Config.RSI_OVERSOLD.
  destruct (Qgtb z 2.0) eqn:E1; [apply Qgtb_gt in E1|apply Qgtb_le in E1].
  { split; [discriminate|intros [[_ H] _]; lra]. }
  destruct (Qltb z (Qopp 2.0)) eqn:E2;
    [apply Qltb_lt in E2|apply Qltb_ge in E2].
  { split; [discriminate|intros [[H _] _]; lra]. }
  destruct (Qgtb r 70) eqn:E3; [apply Qgtb_gt in E3|apply Qgtb_le in E3].
  { split; [discriminate|intros (_ & [_ H] & _); lra]. }
  destruct (Qltb r 30) eqn:E4; [apply Qltb_lt in E4|apply Qltb_ge in E4].
  { split; [discriminate|intros (_ & [H _] & _); lra]. }
  destruct (Qltb m (-0.001)) eqn:E5;
    [apply Qltb_lt in E5|apply Qltb_ge in E5].
  { split; [discriminate|intros (_ & _ & [H _]); lra]. }
  destruct (Qgtb m 0.001) eqn:E6; [apply Qgtb_gt in E6|apply Qgtb_le in E6].
  { split; [discriminate|intros (_ & _ & [_ H]); lra]. }
  split; [intros _|reflexivity]. repeat split; lra.
Qed.

(** X1: [generate_signal] returns nothing exactly when no direction rule
    fires, that is when the z-score is within [-2, 2], the RSI within
    [30, 70] and the MACD histogram within [-0.001, 0.001]: the precision
    gate never removes a signal whose direction was determined. *)
Theorem no_signal_iff_no_rule_fires (z r m v : Q) :
  generate_signal z r m v = None <->
  (-2 <= z <= 2) /\ (30 <= r <= 70) /\ (-0.001 <= m <= 0.001).
Proof.
  rewrite <- signal_direction_none.
  destruct (signal_direction z r m) as [d|] eqn:Hd.
  - rewrite (generate_signal_some z r m v d Hd). split; discriminate.
  - rewrite (generate_signal_none z r m v Hd). split; reflexivity.
Qed.

(** X2: a signal whose direction does not come from the z-score (the
    z-score is within [-2, 2]) always has strength STRONG: the RSI or
    MACD rule that fixed the direction also confirms it.  WEAK and
    MODERATE only occur for directions fixed by the z-score. *)
Theorem signal_without_z_score_is_strong (z r m v : Q) (s : signal) :
  generate_signal z r m v = Some s ->
  -2 <= z <= 2 ->
  sig_strength s = STRONG.
Proof.
  intros Hs [Hz1 Hz2].
  pose proof (generate_signal_direction z r m v s Hs) as Hd.
  rewrite (generate_signal_some z r m v _ Hd) in Hs.
  injection Hs as <-. simpl.
  revert Hd. generalize (sig_direction s) as d. clear s. intros d.
  unfold signal_direction, signal_strength, Config.Z_SCORE_THRESHOLD,
    Config.RSI_OVERBOUGHT, Config.RSI_OVERSOLD.
  assert (E1 : Qgtb z 2.0 = false) by (apply Qgtb_le; lra).
  assert (E2 : Qltb z (Qopp 2.0) = false) by (apply Qltb_ge; lra).
  rewrite E1, E2.
  destruct (Qgtb r 70) eqn:E3.
  { intros [= <-]. simpl. destruct (Qgtb v 1.5);
      destruct (Qgtb m 0 && false), (Qltb m 0 && true); reflexivity. }
  destruct (Qltb r 30) eqn:E4.
  { intros [= <-]. simpl. destruct (Qgtb v 1.5);
      destruct (Qgtb m 0 && true), (Qltb m 0 && false); reflexivity. }
  destruct (Qltb m (-0.001)) eqn:E5.
  { intros [= <-]. apply Qltb_lt in E5.
    assert (E6 : Qgtb m 0 = false) by (apply Qgtb_le; lra).
    assert (E7 : Qltb m 0 = true) by (apply Qltb_lt; lra).
    rewrite E6, E7. simpl. destruct (Qgtb v 1.5); reflexivity. }
  destruct (Qgtb m 0.001) eqn:E6; [|discriminate].
  intros [= <-]. apply Qgtb_gt in E6.
  assert (E7 : Qgtb m 0 = true) by (apply Qgtb_gt; lra).
  rewrite E7. simpl. destruct (Qgtb v 1.5); reflexivity.
Qed.

Lemma signal_without_z_score_is_strong_witness :
  exists s, generate_signal 1 50 0.0015 1 = Some s /\ sig_strength s = STRONG.
Proof.
  assert (H : generate_signal 1 50 0.0015 1
              = Some (mkSignal BUY STRONG
                        (calculate_signal_precision 1 50 0.0015 1)))
    by (vm_compute; reflexivity).
  eexists. split; [exact H|].
  apply (signal_without_z_score_is_strong 1 50 0.0015 1 _ H). lra.
Defined.

Lemma py_min_mono_l (a b c : Q) : a <= b -> py_min a c <= py_min b c.
Proof.
  intros Hab. unfold py_min.
  destruct (Qltb c a) eqn:E1; [apply Qltb_lt in E1|apply Qltb_ge in E1];
  destruct (Qltb c b) eqn:E2; [apply Qltb_lt in E2|apply Qltb_ge in E2|
                               apply Qltb_lt in E2|apply Qltb_ge in E2];
    lra.
Qed.

(** X3: for fixed z-score, RSI and MACD inputs the precision score does
    not go down when the volume ratio grows. *)
Theorem precision_monotone_in_volume_ratio (z r m v1 v2 : Q) :
  v1 <= v2 ->
  calculate_signal_precision z r m v1 <= calculate_signal_precision z r m v2.
Proof.
  intros Hv. unfold calculate_signal_precision.
  apply py_min_mono_l.
  destruct (Qgtb v1 1.5) eqn:A1; [apply Qgtb_gt in A1|apply Qgtb_le in A1];
  destruct (Qgtb v1 1.2) eqn:A2; [apply Qgtb_gt in A2|apply Qgtb_le in A2|
                                  apply Qgtb_gt in A2|apply Qgtb_le in A2];
  destruct (Qgtb v2 1.5) eqn:B1;
    try (apply Qgtb_gt in B1); try (apply Qgtb_le in B1);
  destruct (Qgtb v2 1.2) eqn:B2;
    try (apply Qgtb_gt in B2); try (apply Qgtb_le in B2);
  lra.
Qed.

Lemma precision_monotone_in_volume_ratio_witness :
  calculate_signal_precision 3 20 0.5 1 <= calculate_signal_precision 3 20 0.5 2.
Proof.
  apply (precision_monotone_in_volume_ratio 3 20 0.5 1 2). lra.
Defined.

(** ** The indicator engine on full windows *)

Lemma rolling_length (agg : list Q -> option Q) (w : nat)
    (s : list (option Q)) :
  List.length (rolling agg w s) = List.length s.
Proof. unfold rolling. now rewrite List.length_map, List.length_seq. Qed.

Lemma last_zip_with {A B C} (f : A -> B -> C) (a : list A) (b : list B)
    (da : A) (db : B) (dc : C) :
  List.length a = List.length b -> a <> [] ->
  List.last (zip_with f a b) dc = f (List.last a da) (List.last b db).
Proof.
  revert b. induction a as [|x a IH]; intros [|y b] Hlen Hne;
    try contradiction; try discriminate.
  destruct a as [|x' a], b as [|y' b]; try discriminate; [reflexivity|].
  change (zip_with f (x :: x' :: a) (y :: y' :: b))
    with (f x y :: zip_with f (x' :: a) (y' :: b)).
  change (List.last (x :: x' :: a) da) with (List.last (x' :: a) da).
  change (List.last (y :: y' :: b) db) with (List.last (y' :: b) db).
  rewrite <- (IH (y' :: b)); [reflexivity| |discriminate].
  simpl in Hlen |- *. lia.
Qed.

Lemma iloc_last_series_op (f : option Q -> option Q -> option Q)
    (a b : list (option Q)) :
  List.length a = List.length b -> a <> [] ->
  iloc_last (series_op f a b) = f (iloc_last a) (iloc_last b).
Proof.
  intros Hlen Hne. rewrite series_op_same_length by assumption.
  unfold iloc_last. apply last_zip_with; assumption.
Qed.

Lemma iloc_last_map (g : option Q -> option Q) (s : list (option Q)) :
  s <> [] -> iloc_last (List.map g s) = g (iloc_last s).
Proof.
  intros Hne. unfold iloc_last.
  destruct (exists_last Hne) as (s' & x & ->).
  rewrite List.map_app. cbn [List.map]. now rewrite !last_last.
Qed.

Lemma iloc_last_series_last (l : list Q) :
  l <> [] -> iloc_last (series l) = Some (List.last l 0).
Proof.
  intros Hne. unfold iloc_last, series.
  destruct (exists_last Hne) as (l' & x & ->).
  rewrite List.map_app. cbn [List.map]. now rewrite !last_last.
Qed.

(** X4: for every series and every period of at least 1,
    [calculate_rsi] returns a finite number between 0 and 100. *)
Theorem rsi_between_0_and_100 (prices : list Q) (p : nat) :
  (1 <= p)%nat ->
  exists r, calculate_rsi prices p = Some r /\ 0 <= r <= 100.
Proof.
  intros Hp. unfold calculate_rsi.
  destruct (List.length prices <? p + 1)%nat eqn:E.
  { exists 50. split; [reflexivity|lra]. }
  apply Nat.ltb_ge in E.
  set (delta := diff (series prices)).
  assert (Hlen : List.length delta = List.length prices)
    by (unfold delta; now rewrite diff_length, series_length).
  rewrite !where_series, neg_series.
  set (G := List.map (fun v : option Q =>
                        match v with
                        | Some x => if Qgtb x 0 then x else 0
                        | None => 0
                        end) delta).
  set (L := List.map Qopp
              (List.map (fun v : option Q =>
                           match v with
                           | Some x => if Qltb x 0 then x else 0
                           | None => 0
                           end) delta)).
  assert (HG : Forall (fun x => 0 <= x) G).
  { apply List.Forall_forall. intros x Hx. apply in_map_iff in Hx.
    destruct Hx as ([d|] & <- & _); [|lra].
    destruct (Qgtb d 0) eqn:Ed; [apply Qgtb_gt in Ed|]; lra. }
  assert (HL : Forall (fun x => 0 <= x) L).
  { apply List.Forall_forall. intros x Hx. apply in_map_iff in Hx.
    destruct Hx as (y & <- & Hy). apply in_map_iff in Hy.
    destruct Hy as ([d|] & <- & _); [|lra].
    destruct (Qltb d 0) eqn:Ed; [apply Qltb_lt in Ed|]; lra. }
  assert (LG : List.length G = List.length prices)
    by (unfold G; now rewrite List.length_map).
  assert (LL : List.length L = List.length prices)
    by (unfold L; now rewrite !List.length_map).
  destruct (rolling_mean_nonneg p G ltac:(lia) HG) as (g & -> & Hg).
  destruct (rolling_mean_nonneg p L ltac:(lia) HL) as (l & -> & Hl).
  destruct (Qeq_bool l 0) eqn:El.
  { exists 100. split; [reflexivity|lra]. }
  pose proof (Qeq_bool_neq _ _ El) as Hl0.
  unfold fdiv at 2. rewrite El.
  assert (Hrs : 0 <= g / l) by (apply Qle_shift_div_l; lra).
  cbn [fadd lift2]. unfold fdiv.
  assert (E1 : Qeq_bool (1 + g / l) 0 = false).
  { destruct (Qeq_bool (1 + g / l) 0) eqn:E1; [|reflexivity].
    apply Qeq_bool_iff in E1. lra. }
  rewrite E1. cbn [fsub lift2]. eexists. split; [reflexivity|].
  assert (H1 : 0 <= 100 / (1 + g / l)) by (apply Qle_shift_div_l; lra).
  assert (H2 : 100 / (1 + g / l) <= 100) by (apply Qle_shift_div_r; lra).
  lra.
Qed.

Lemma rsi_between_0_and_100_witness :
  exists r, calculate_rsi [4; 2; 4; 5] 2 = Some r /\ 0 <= r <= 100.
Proof. apply (rsi_between_0_and_100 [4; 2; 4; 5] 2). lia. Defined.

(** X5: whatever [calculate_macd] returns, its third component (the
    histogram) is the first (the MACD line) minus the second (the signal
    line). *)
Theorem macd_histogram_is_line_minus_signal (prices : list Q)
    (fast slow signal : nat) (m s h : Q) :
  calculate_macd prices fast slow signal = Some (m, s, h) ->
  h = m - s.
Proof.
  unfold calculate_macd.
  destruct (List.length prices <? slow)%nat eqn:E.
  { intros [= <- <- <-]. reflexivity. }
  apply Nat.ltb_ge in E.
  destruct ((fast =? 0)%nat || (slow =? 0)%nat || (signal =? 0)%nat)
    eqn:Es; [discriminate|].
  apply orb_false_elim in Es. destruct Es as [Es _].
  apply orb_false_elim in Es. destruct Es as [_ Es].
  apply Nat.eqb_neq in Es.
  set (macd := zip_with Qminus (ewm_mean fast prices) (ewm_mean slow prices)).
  set (sig := ewm_mean signal macd).
  assert (Lmacd : List.length macd = List.length prices).
  { unfold macd, ewm_mean.
    rewrite zip_with_length; rewrite !ewm_from_length; reflexivity. }
  assert (Lsig : List.length sig = List.length macd).
  { unfold sig, ewm_mean. now rewrite ewm_from_length. }
  assert (Nmacd : macd <> []) by (apply length_nonempty; lia).
  assert (Nsig : sig <> []) by (apply length_nonempty; lia).
  assert (Nhist : zip_with Qminus macd sig <> []).
  { apply length_nonempty. rewrite zip_with_length; [lia|congruence]. }
  rewrite !iloc_last_series_last by assumption.
  rewrite (last_zip_with Qminus macd sig 0 0 0) by (congruence || assumption).
  intros [= <- <- <-]. reflexivity.
Qed.

Lemma macd_histogram_is_line_minus_signal_witness :
  exists m s h,
    calculate_macd [1; 2; 4] 1 2 1 = Some (m, s, h) /\ h = m - s.
Proof.
  destruct (calculate_macd [1; 2; 4] 1 2 1) as [[[m s] h]|] eqn:E.
  - exists m, s, h. split; [reflexivity|].
    exact (macd_histogram_is_line_minus_signal [1; 2; 4] 1 2 1 m s h E).
  - exfalso. vm_compute in E. discriminate E.
Defined.

Lemma window_app_last {A} (pre w : list A) :
  window (List.length w) (List.length (pre ++ w) - 1) (pre ++ w) = w.
Proof.
  unfold window. rewrite List.length_app.
  destruct w as [|x w].
  - simpl. apply firstn_O.
  - replace (S (List.length pre + List.length (x :: w) - 1)
               - List.length (x :: w))%nat
      with (List.length pre) by (simpl; lia).
    rewrite drop_app_length. apply firstn_all.
Qed.

Lemma rolling_last_app (agg : list Q -> option Q) (pre w : list Q) :
  (1 <= List.length w)%nat ->
  iloc_last (rolling agg (List.length w) (series (pre ++ w))) = agg w.
Proof.
  intros Hw. rewrite rolling_last_series.
  - now rewrite window_app_last.
  - rewrite List.length_app. lia.
Qed.


Lemma last_app_nonempty {A} (pre w : list A) (d : A) :
  w <> [] -> List.last (pre ++ w) d = List.last w d.
Proof.
  intros Hne. destruct (exists_last Hne) as (w' & x & ->).
  now rewrite List.app_assoc, !last_last.
Qed.

Lemma calculate_z_score_trailing (fsqrt : Q -> Q) (pre w : list Q) :
  (1 <= List.length w)%nat ->
  calculate_z_score fsqrt (pre ++ w) (List.length w)
    = calculate_z_score fsqrt w (List.length w).
Proof.
  intros Hw. unfold calculate_z_score.
  assert (E : (List.length (pre ++ w) <? List.length w)%nat = false)
    by (apply Nat.ltb_ge; rewrite List.length_app; lia).
  rewrite E, Nat.ltb_irrefl.
  rewrite !rolling_last_app by assumption.
  rewrite !(rolling_last_app _ [] w) by assumption.
  assert (Nw : w <> []) by now apply length_nonempty.
  rewrite !iloc_last_series_last
    by (assumption || (intros H; apply app_eq_nil in H; tauto)).
  now rewrite (last_app_nonempty pre w 0) by assumption.
Qed.



(** X7: the z-score is 0 whenever the last [p >= 2] closes are equal,
    whatever the earlier closes are: the rolling standard deviation of
    the window is 0 (for a square root with [fsqrt 0 = 0]). *)
Theorem z_score_zero_on_flat_window (fsqrt : Q -> Q) (pre : list Q)
    (c : Q) (p : nat) :
  (forall x, x == 0 -> fsqrt x == 0) ->
  (2 <= p)%nat ->
  calculate_z_score fsqrt (pre ++ repeat c p) p = Some 0.
Proof.
  intros H0 Hp.
  pose proof (calculate_z_score_trailing fsqrt pre (repeat c p)) as H.
  rewrite repeat_length in H. rewrite H by lia.
  apply (calculate_z_score_flat fsqrt H0). lia.
Qed.

Lemma z_score_zero_on_flat_window_witness :
  calculate_z_score sqrt_lower ([1; 5; 2] ++ repeat 7 4) 4 = Some 0.
Proof.
  apply (z_score_zero_on_flat_window sqrt_lower [1; 5; 2] 7 4); [|lia].
  intros x Hx. unfold sqrt_lower.
  rewrite (Qred_complete x 0 Hx). reflexivity.
Defined.

(** X8: with a period of 1 the z-score of a non-empty series is not a
    number: the sample standard deviation of a one-point window is NaN,
    which is not [== 0], and the quotient is NaN. *)
Theorem z_score_period_one_is_nan (fsqrt : Q -> Q) (prices : list Q) :
  prices <> [] ->
  calculate_z_score fsqrt prices 1 = None.
Proof.
  intros Hne. unfold calculate_z_score.
  assert (Hlen : (1 <= List.length prices)%nat)
    by (destruct prices; [contradiction|simpl; lia]).
  assert (E : (List.length prices <? 1)%nat = false)
    by (apply Nat.ltb_ge; lia).
  rewrite E, (rolling_last_series (std fsqrt)) by lia.
  unfold std. now rewrite window_length by lia.
Qed.

Lemma z_score_period_one_is_nan_witness :
  calculate_z_score sqrt_lower [3; 4] 1 = None.
Proof.
  apply (z_score_period_one_is_nan sqrt_lower [3; 4]). discriminate.
Defined.

Lemma series_op_length (f : option Q -> option Q -> option Q)
    (a b : list (option Q)) :
  List.length a = List.length b ->
  List.length (series_op f a b) = List.length a.
Proof.
  intros H. rewrite series_op_same_length by assumption.
  now apply zip_with_length.
Qed.

(** X9: on a series of at least [p >= 2] prices the Bollinger bands are
    finite, the middle band is the SMA of the same period, and the upper
    and lower bands lie at the same distance on either side of it. *)
Theorem bollinger_bands_are_centred_on_sma (fsqrt : Q -> Q)
    (prices : list Q) (p : nat) (std_dev : Q) :
  (2 <= p <= List.length prices)%nat ->
  exists u m l,
    calculate_bollinger_bands fsqrt prices p std_dev
      = (Some u, Some m, Some l) /\
    calculate_sma prices p = Some m /\
    u - m == m - l.
Proof.
  intros Hp. unfold calculate_bollinger_bands, calculate_sma.
  assert (E : (List.length prices <? p)%nat = false)
    by (apply Nat.ltb_ge; lia).
  rewrite E.
  set (sma := rolling mean p (series prices)).
  set (sd := rolling (std fsqrt) p (series prices)).
  assert (Lsma : List.length sma = List.length prices)
    by (unfold sma; now rewrite rolling_length, series_length).
  assert (Lsd : List.length sd = List.length prices)
    by (unfold sd; now rewrite rolling_length, series_length).
  assert (Nsma : sma <> []) by (apply length_nonempty; lia).
  assert (Nsd : sd <> []) by (apply length_nonempty; lia).
  rewrite !iloc_last_series_op
    by (rewrite ?List.length_map; congruence || assumption).
  rewrite (iloc_last_map (fun s => fmul s (Some std_dev))) by assumption.
  unfold sma, sd. rewrite !rolling_last_series by lia.
  set (W := window p (List.length prices - 1) prices).
  assert (HW : List.length W = p) by (apply window_length; lia).
  unfold std. rewrite HW.
  assert (E2 : (p <? 2)%nat = false) by (apply Nat.ltb_ge; lia).
  rewrite E2, mean_some by lia.
  cbn [fmul fadd fsub lift2].
  eexists _, _, _. split; [reflexivity|]. split; [reflexivity|]. ring.
Qed.

Lemma bollinger_bands_are_centred_on_sma_witness :
  exists u m l,
    calculate_bollinger_bands sqrt_lower [1; 2; 3; 4] 3 2
      = (Some u, Some m, Some l) /\
    calculate_sma [1; 2; 3; 4] 3 = Some m /\
    u - m == m - l.
Proof.
  apply (bollinger_bands_are_centred_on_sma sqrt_lower [1; 2; 3; 4] 3 2).
  simpl. lia.
Defined.

Lemma qmin_list_repeat (c : Q) (n : nat) :
  qmin_list (repeat c (S n)) = Some c.
Proof.
  unfold qmin_list. simpl. f_equal.
  induction n as [|n IH]; [reflexivity|]. simpl.
  replace (Qmin c c) with c; [exact IH|].
  unfold Qmin, GenericMinMax.gmin. now destruct (c ?= c).
Qed.

Lemma qmax_list_repeat (c : Q) (n : nat) :
  qmax_list (repeat c (S n)) = Some c.
Proof.
  unfold qmax_list. simpl. f_equal.
  induction n as [|n IH]; [reflexivity|]. simpl.
  replace (Qmax c c) with c; [exact IH|].
  unfold Qmax, GenericMinMax.gmax. now destruct (c ?= c).
Qed.

Lemma finite_values_with_nan (l : list (option Q)) :
  In None l -> finite_values l = None.
Proof.
  induction l as [|[x|] l IH]; simpl; [intros []| |reflexivity].
  intros [H|H]; [discriminate|]. now rewrite IH.
Qed.

(** A rolling aggregate is NaN where the series is. *)
Lemma rolling_last_nan (agg : list Q -> option Q) (w : nat)
    (s : list (option Q)) :
  s <> [] -> iloc_last s = None -> iloc_last (rolling agg w s) = None.
Proof.
  intros Hne Hlast. rewrite iloc_last_rolling by assumption.
  destruct ((w =? 0)%nat || (List.length s <? w)%nat) eqn:E; [reflexivity|].
  apply orb_false_elim in E. destruct E as [E0 E1].
  apply Nat.eqb_neq in E0. apply Nat.ltb_ge in E1.
  rewrite finite_values_with_nan; [reflexivity|].
  unfold iloc_last in Hlast.
  destruct (exists_last Hne) as (s' & x & ->).
  rewrite last_last in Hlast. subst x.
  unfold window. rewrite List.length_app in *. simpl in *.
  replace (S (List.length s' + 1 - 1) - w)%nat
    with (List.length s' + 1 - w)%nat by lia.
  rewrite drop_app_le by lia.
  rewrite firstn_all2.
  - apply in_or_app. right. now left.
  - rewrite List.length_app, length_drop. simpl. lia.
Qed.

(** X10: on a flat market the stochastic oscillator is not a number: with
    all highs, lows and closes equal and at least [p >= 1] points, the
    range [highest_high - lowest_low] is 0 and both values returned are
    NaN, not the fallback (50, 50). *)
Theorem stochastic_of_flat_series_is_nan (c : Q) (n p : nat) :
  (1 <= p <= n)%nat ->
  calculate_stochastic (repeat c n) (repeat c n) (repeat c n) p
    = (None, None).
Proof.
  intros Hp. unfold calculate_stochastic. rewrite repeat_length.
  assert (E : (n <? p)%nat = false) by (apply Nat.ltb_ge; lia).
  rewrite E, series_repeat.
  set (S0 := repeat (Some c) n).
  set (ll := rolling qmin_list p S0).
  set (hh := rolling qmax_list p S0).
  assert (LS : List.length S0 = n) by apply repeat_length.
  assert (Lll : List.length ll = n) by (unfold ll; now rewrite rolling_length).
  assert (Lhh : List.length hh = n) by (unfold hh; now rewrite rolling_length).
  assert (Hll : iloc_last ll = Some c).
  { unfold ll, S0. rewrite rolling_last_flat by lia.
    destruct p; [lia|]. apply qmin_list_repeat. }
  assert (Hhh : iloc_last hh = Some c).
  { unfold hh, S0. rewrite rolling_last_flat by lia.
    destruct p; [lia|]. apply qmax_list_repeat. }
  assert (HS : iloc_last S0 = Some c).
  { unfold S0. rewrite <- series_repeat, iloc_last_series_last.
    - destruct n; [lia|]. now rewrite last_repeat.
    - apply length_nonempty. rewrite repeat_length. lia. }
  set (A := series_op fsub S0 ll).
  set (B := series_op fsub hh ll).
  assert (LA : List.length A = n)
    by (unfold A; rewrite series_op_length; congruence).
  assert (LB : List.length B = n)
    by (unfold B; rewrite series_op_length; congruence).
  set (K := List.map (fmul (Some 100)) (series_op fdiv A B)).
  assert (LK0 : List.length (series_op fdiv A B) = n)
    by (rewrite series_op_length; congruence).
  assert (LK : List.length K = n)
    by (unfold K; now rewrite List.length_map).
  assert (HK : iloc_last K = None).
  { unfold K. rewrite iloc_last_map by (apply length_nonempty; lia).
    rewrite iloc_last_series_op
      by (congruence || (apply length_nonempty; lia)).
    unfold A, B.
    rewrite !iloc_last_series_op
      by (congruence || (apply length_nonempty; lia)).
    rewrite HS, Hll, Hhh. cbn [fsub lift2]. unfold fdiv.
    assert (E0 : Qeq_bool (c - c) 0 = true) by (apply Qeq_bool_iff; ring).
    now rewrite E0. }
  rewrite HK. f_equal.
  apply rolling_last_nan; [apply length_nonempty; lia|exact HK].
Qed.

Lemma stochastic_of_flat_series_is_nan_witness :
  calculate_stochastic (repeat 7 5) (repeat 7 5) (repeat 7 5) 3 = (None, None).
Proof. apply (stochastic_of_flat_series_is_nan 7 5 3). lia. Defined.

Lemma nonneg_series (s : list (option Q)) :
  Forall nonneg_value s ->
  exists T, s = series T /\ Forall (fun x => 0 <= x) T.
Proof.
  induction 1 as [|[x|] s Hx Hs (T & -> & HT)].
  - exists []. split; [reflexivity|constructor].
  - exists (x :: T). split; [reflexivity|]. now constructor.
  - destruct Hx.
Qed.

Lemma zip_fmax_nonneg (a b : list (option Q)) :
  List.length a = List.length b ->
  Forall nonneg_value a -> Forall nonneg_value (zip_with fmax a b).
Proof.
  intros Hlen Ha. revert b Hlen.
  induction Ha as [|x a Hx Ha IH]; intros [|y b] Hlen; try discriminate;
    simpl; constructor.
  - destruct x as [x|]; [|destruct Hx]. simpl in Hx.
    destruct y as [y|]; simpl; [|assumption].
    pose proof (Q.le_max_l x y). lra.
  - apply IH. simpl in Hlen. lia.
Qed.

Lemma zip_fsub_nonneg (high low : list Q) :
  Forall2 (fun h l => l <= h) high low ->
  Forall nonneg_value (zip_with fsub (series high) (series low)).
Proof.
  induction 1 as [|h l high low Hhl _ IH]; simpl; constructor.
  - simpl. lra.
  - exact IH.
Qed.

(** X11: for candles whose low never exceeds their high, over at least
    [p >= 1] rows, the average true range is a finite, non-negative
    number. *)
Theorem atr_is_non_negative (high low close : list Q) (p : nat) :
  List.length high = List.length close ->
  Forall2 (fun h l => l <= h) high low ->
  (1 <= p <= List.length close)%nat ->
  exists a, calculate_atr high low close p = Some a /\ 0 <= a.
Proof.
  intros Hhc Hhl Hp. unfold calculate_atr.
  assert (E : (List.length close <? p)%nat = false)
    by (apply Nat.ltb_ge; lia).
  rewrite E.
  assert (Hlh : List.length low = List.length high)
    by (symmetry; exact (Forall2_length _ _ _ Hhl)).
  set (n := List.length close) in *.
  assert (Lh : List.length (series high) = n)
    by (rewrite series_length; congruence).
  assert (Ll : List.length (series low) = n)
    by (rewrite series_length; congruence).
  assert (Lc : List.length (shift (series close)) = n)
    by (now rewrite shift_length, series_length).
  set (tr1 := series_op fsub (series high) (series low)).
  set (tr2 := List.map fabs
                (series_op fsub (series high) (shift (series close)))).
  set (tr3 := List.map fabs
                (series_op fsub (series low) (shift (series close)))).
  assert (L1 : List.length tr1 = n)
    by (unfold tr1; rewrite series_op_length; congruence).
  assert (L2 : List.length tr2 = n)
    by (unfold tr2; rewrite List.length_map, series_op_length; congruence).
  assert (L3 : List.length tr3 = n)
    by (unfold tr3; rewrite List.length_map, series_op_length; congruence).
  assert (H1 : Forall nonneg_value tr1).
  { unfold tr1. rewrite series_op_same_length by congruence.
    now apply zip_fsub_nonneg. }
  assert (L12 : List.length (series_op fmax tr1 tr2) = n)
    by (rewrite series_op_length; congruence).
  assert (H12 : Forall nonneg_value (series_op fmax tr1 tr2)).
  { rewrite series_op_same_length by congruence.
    apply zip_fmax_nonneg; [congruence|assumption]. }
  assert (HTR : Forall nonneg_value
                  (series_op fmax (series_op fmax tr1 tr2) tr3)).
  { rewrite (series_op_same_length fmax (series_op fmax tr1 tr2))
      by congruence.
    apply zip_fmax_nonneg; [congruence|assumption]. }
  assert (LTR : List.length (series_op fmax (series_op fmax tr1 tr2) tr3) = n)
    by (rewrite series_op_length; congruence).
  destruct (nonneg_series _ HTR) as (T & HT & HT0).
  rewrite HT in LTR |- *. rewrite series_length in LTR.
  apply rolling_mean_nonneg; [lia|assumption].
Qed.

Lemma atr_is_non_negative_witness :
  exists a, calculate_atr [2; 4; 6] [0; 1; 2] [1; 2; 5] 2 = Some a /\ 0 <= a.
Proof.
  apply (atr_is_non_negative [2; 4; 6] [0; 1; 2] [1; 2; 5] 2).
  - reflexivity.
  - repeat constructor; lra.
  - simpl. lia.
Defined.

(** ** Rounding *)

Lemma pow10_pos (n : nat) : 0 < inject_Z (10 ^ Z.of_nat n).
Proof.
  change 0 with (inject_Z 0). rewrite <- Zlt_Qlt.
  apply Z.pow_pos_nonneg; lia.
Qed.

Lemma round_half_even_close (y : Q) :
  inject_Z (round_half_even y) - (1 # 2) <= y
  /\ y <= inject_Z (round_half_even y) + (1 # 2).
Proof.
  unfold round_half_even.
  pose proof (Qfloor_le y) as Hlo. pose proof (Qlt_floor y) as Hhi.
  rewrite inject_Z_plus in Hhi. change (inject_Z 1) with 1 in Hhi.
  destruct (Qltb (y - inject_Z (Qfloor y)) (1 # 2)) eqn:E1;
    [apply Qltb_lt in E1|apply Qltb_ge in E1].
  { split; lra. }
  destruct (Qgtb (y - inject_Z (Qfloor y)) (1 # 2)) eqn:E2;
    [apply Qgtb_gt in E2|apply Qgtb_le in E2].
  { rewrite inject_Z_plus. change (inject_Z 1) with 1. split; lra. }
  destruct (Z.even (Qfloor y)).
  - split; lra.
  - rewrite inject_Z_plus. change (inject_Z 1) with 1. split; lra.
Qed.

Lemma round_half_even_range (a b : Z) (y : Q) :
  inject_Z a <= y <= inject_Z b ->
  (a <= round_half_even y <= b)%Z.
Proof.
  intros [Ha Hb].
  pose proof (Qfloor_resp_le _ _ Ha) as Hfa. rewrite Qfloor_Z in Hfa.
  pose proof (Qfloor_resp_le _ _ Hb) as Hfb. rewrite Qfloor_Z in Hfb.
  assert (Hup : 0 < y - inject_Z (Qfloor y) -> (Qfloor y + 1 <= b)%Z).
  { intros Hr. destruct (Z.eq_dec (Qfloor y) b) as [Heq|Hne]; [|lia].
    rewrite Heq in Hr. lra. }
  unfold round_half_even.
  destruct (Qltb (y - inject_Z (Qfloor y)) (1 # 2)) eqn:E1;
    [apply Qltb_lt in E1|apply Qltb_ge in E1].
  { lia. }
  assert (Hr : 0 < y - inject_Z (Qfloor y)) by lra.
  specialize (Hup Hr).
  destruct (Qgtb (y - inject_Z (Qfloor y)) (1 # 2)); [lia|].
  destruct (Z.even (Qfloor y)); lia.
Qed.

Lemma py_round_range (a b : Z) (x : Q) (n : nat) :
  inject_Z a <= x <= inject_Z b ->
  inject_Z a <= py_round x n <= inject_Z b.
Proof.
  intros [Ha Hb]. unfold py_round.
  set (s := inject_Z (10 ^ Z.of_nat n)).
  assert (Hs : 0 < s) by apply pow10_pos.
  assert (Hr : (a * 10 ^ Z.of_nat n <= round_half_even (x * s)
                <= b * 10 ^ Z.of_nat n)%Z).
  { apply round_half_even_range. rewrite !inject_Z_mult. fold s.
    split; apply Qmult_le_compat_r; lra. }
  destruct Hr as [Hr1 Hr2].
  rewrite Zle_Qle, inject_Z_mult in Hr1, Hr2. fold s in Hr1, Hr2.
  split.
  - apply Qle_shift_div_l; assumption.
  - apply Qle_shift_div_r; assumption.
Qed.

(** X12: Python's [round(x, n)], as the result dictionaries use it, moves
    a value by at most half a unit of the last digit kept, and never out
    of an interval with integer end points. *)
Theorem py_round_is_close (x : Q) (n : nat) :
  (- (1 # 2) <= (py_round x n - x) * inject_Z (10 ^ Z.of_nat n) <= 1 # 2) /\
  (forall a b : Z,
      inject_Z a <= x <= inject_Z b ->
      inject_Z a <= py_round x n <= inject_Z b).
Proof.
  split; [|intros a b; apply py_round_range].
  unfold py_round.
  set (s := inject_Z (10 ^ Z.of_nat n)).
  assert (Hs : 0 < s) by apply pow10_pos.
  destruct (round_half_even_close (x * s)) as [H1 H2].
  set (r := inject_Z (round_half_even (x * s))) in *.
  assert (E : (r / s - x) * s == r - x * s) by (field; lra).
  rewrite E. split; lra.
Qed.

Lemma py_round_is_close_witness :
  inject_Z 60 <= py_round (1234567 # 20000) 2 <= inject_Z 100.
Proof.
  apply (py_round_is_close (1234567 # 20000) 2). split.
  - unfold Qle. simpl. lia.
  - unfold Qle. simpl. lia.
Defined.

(** Ties go to the even neighbour. *)
Example py_round_ties :
  py_round 2.5 0 == 2 /\ py_round 3.5 0 == 4 /\ py_round 0.125 2 == 0.12
  /\ py_round (-0.5) 0 == 0.
Proof. repeat split. Qed.

(** ** The orchestrator *)





(** X14: on a frame of 50 rows or more [analyze_symbol] produces a result
    exactly when one of the direction rules fires on the indicators of
    the frame: no frame is refused for any other reason. *)
Theorem analyze_symbol_none_iff (fsqrt : Q -> Q) (now : Z) (name : string)
    (data : list candle) (price : Q) :
  (50 <= List.length data)%nat ->
  exists ind,
    indicators fsqrt data = Some ind /\
    (analyze_symbol fsqrt now name data price = None <->
     signal_direction (z_score ind) (rsi ind) (macd_histogram ind) = None).
Proof.
  intros Hlen.
  destruct (indicators_defined fsqrt data) as (ind & Hind).
  exists ind. split; [assumption|].
  unfold analyze_symbol.
  assert (E : (List.length data <? 50)%nat = false)
    by (apply Nat.ltb_ge; lia).
  rewrite E, Hind. cbn [mbind option_bind].
  destruct (signal_direction (z_score ind) (rsi ind) (macd_histogram ind))
    as [d|] eqn:Hd.
  - rewrite (generate_signal_some _ _ _ (volume_ratio ind) _ Hd).
    cbn [mbind option_bind]. split; discriminate.
  - rewrite (generate_signal_none _ _ _ (volume_ratio ind) Hd).
    cbn [mbind option_bind]. split; reflexivity.
Qed.

Lemma analyze_symbol_none_iff_witness :
  exists ind,
    indicators sqrt_lower (repeat (flat_candle 100 1000) 50) = Some ind /\
    (analyze_symbol sqrt_lower 0 "BTCUSDT"
       (repeat (flat_candle 100 1000) 50) 100 = None <->
     signal_direction (z_score ind) (rsi ind) (macd_histogram ind) = None).
Proof.
  apply (analyze_symbol_none_iff sqrt_lower 0 "BTCUSDT"
           (repeat (flat_candle 100 1000) 50) 100).
  simpl. lia.
Defined.

Lemma omap_length_le {A B} (f : A -> option B) (l : list A) :
  (List.length (omap f l) <= List.length l)%nat.
Proof.
  induction l as [|x l IH]; [reflexivity|]. cbn.
  destruct (f x); simpl; lia.
Qed.


(** ** Stability of the final sort *)

Lemma string_ltb_irrefl (s : string) : String.ltb s s = false.
Proof.
  destruct (String.ltb s s) eqn:E; [|reflexivity].
  now rewrite (string_ltb_asym s s E) in E.
Qed.

Lemma key_lt_not_same (a b k : Q * string) :
  key_lt a b = true -> same_key k a = true -> same_key k b = false.
Proof.
  unfold key_lt, same_key. intros Hlt Ha.
  apply andb_prop in Ha. destruct Ha as [Ha1 Ha2].
  apply Qeq_bool_iff in Ha1. apply String.eqb_eq in Ha2.
  destruct (Qeq_bool (fst k) (fst b)) eqn:Hb1; [|reflexivity].
  apply Qeq_bool_iff in Hb1. simpl.
  destruct (String.eqb (snd k) (snd b)) eqn:Hb2; [|reflexivity].
  apply String.eqb_eq in Hb2.
  assert (E : Qeq_bool (fst a) (fst b) = true)
    by (apply Qeq_bool_iff; lra).
  rewrite E in Hlt. rewrite <- Ha2, <- Hb2 in Hlt.
  now rewrite string_ltb_irrefl in Hlt.
Qed.

Lemma insert_desc_filter {A} (key : A -> Q * string) (k : Q * string)
    (x : A) (l : list A) :
  List.filter (fun e => same_key k (key e)) (insert_desc key x l)
    = List.filter (fun e => same_key k (key e)) (x :: l).
Proof.
  induction l as [|y l IH]; [reflexivity|].
  cbn [insert_desc].
  destruct (key_lt (key x) (key y)) eqn:E; [|reflexivity].
  cbn [List.filter] in IH |- *. rewrite IH.
  destruct (same_key k (key x)) eqn:Hx; [|reflexivity].
  now rewrite (key_lt_not_same _ _ _ E Hx).
Qed.

Lemma sort_desc_filter {A} (key : A -> Q * string) (k : Q * string)
    (l : list A) :
  List.filter (fun e => same_key k (key e)) (sort_desc key l)
    = List.filter (fun e => same_key k (key e)) l.
Proof.
  induction l as [|x l IH]; [reflexivity|].
  cbn [sort_desc fold_right]. fold (sort_desc key l).
  rewrite insert_desc_filter. cbn [List.filter]. now rewrite IH.
Qed.

(** X16: the final sort is stable: the results that share a precision
    and a strength label appear in [analyze_all_futures]'s list in the
    order in which the acquisition returned their symbols. *)
Theorem analyze_all_futures_stable (fsqrt : Q -> Q) (now : Z)
    (futures_data : list future_data) (k : Q * string) :
  List.filter (fun r => same_key k (sort_key r))
    (analyze_all_futures fsqrt now futures_data)
  = List.filter (fun r => same_key k (sort_key r))
      (omap (fun fd => analyze_symbol fsqrt now (fd_symbol fd) (fd_data fd)
                         (fd_current_price fd)) futures_data).
Proof.
  unfold analyze_all_futures. destruct futures_data; [reflexivity|].
  apply sort_desc_filter.
Qed.

(** ** Acquisition *)




Lemma omap_perm {A B} (f : A -> option B) (l l' : list A) :
  Permutation l l' -> Permutation (omap f l) (omap f l').
Proof.
  induction 1 as [|x l l' _ IH|x y l|l l' l'' _ IH1 _ IH2]; cbn.
  - constructor.
  - destruct (f x); [now constructor|exact IH].
  - destruct (f x), (f y); try reflexivity. apply perm_swap.
  - now transitivity (omap f l').
Qed.

Lemma get_all_futures_data_elements (u : upstream)
    (symbols completed : list string) (fd : future_data) :
  Permutation completed symbols ->
  In fd (get_all_futures_data u symbols completed) ->
  In (fd_symbol fd) symbols /\
  get_klines_data u (fd_symbol fd) = Some (fd_data fd) /\
  (50 < List.length (fd_data fd))%nat /\
  get_current_price u (fd_symbol fd) = Some (fd_current_price fd) /\
  ~ fd_current_price fd == 0.
Proof.
  intros Hperm. unfold get_all_futures_data.
  destruct symbols as [|s0 symbols'] eqn:Hsym; [intros []|].
  rewrite <- Hsym in *. clear Hsym s0 symbols'.
  intros Hin. apply list_elem_of_In, list_elem_of_omap in Hin.
  destruct Hin as (s & Hs & Hfd).
  apply process_symbol_data_some in Hfd.
  destruct Hfd as (df & p & Hk & Hlen & Hp & Hnz & ->). simpl.
  apply list_elem_of_In in Hs. repeat split; try assumption.
  now apply (Permutation_in _ Hperm).
Qed.

(** X18: every record of a batch returned by [get_all_futures_data]
    carries the frame and the price fetched for its own symbol, a frame of
    more than 50 rows and a price that is not zero; the batch has at most
    one record per task, and two runs whose tasks complete in different
    orders return the same records, in a possibly different order. *)
Theorem batch_records_are_consistent (u : upstream)
    (symbols completed completed' : list string) :
  Permutation completed symbols ->
  Permutation completed' symbols ->
  Forall (fun fd =>
            In (fd_symbol fd) symbols /\
            get_klines_data u (fd_symbol fd) = Some (fd_data fd) /\
            (50 < List.length (fd_data fd))%nat /\
            get_current_price u (fd_symbol fd) = Some (fd_current_price fd) /\
            ~ fd_current_price fd == 0)
         (get_all_futures_data u symbols completed) /\
  (List.length (get_all_futures_data u symbols completed)
   <= List.length symbols)%nat /\
  Permutation (get_all_futures_data u symbols completed)
              (get_all_futures_data u symbols completed').
Proof.
  intros Hperm Hperm'. split; [|split].
  - apply List.Forall_forall. intros fd Hin.
    now apply (get_all_futures_data_elements u symbols completed).
  - unfold get_all_futures_data. destruct symbols; [simpl; lia|].
    rewrite <- (Permutation_length Hperm). apply omap_length_le.
  - unfold get_all_futures_data. destruct symbols; [reflexivity|].
    apply omap_perm. now rewrite Hperm, Hperm'.
Qed.

Lemma batch_records_are_consistent_witness :
  let u := constant_upstream (repeat (flat_candle 100 1000) 51) 100 in
  Permutation
    (get_all_futures_data u ["BTCUSDT"; "ETHUSDT"]%string
       ["BTCUSDT"; "ETHUSDT"]%string)
    (get_all_futures_data u ["BTCUSDT"; "ETHUSDT"]%string
       ["ETHUSDT"; "BTCUSDT"]%string).
Proof.
  intros u.
  refine (proj2 (proj2 (batch_records_are_consistent u
            ["BTCUSDT"; "ETHUSDT"]%string ["BTCUSDT"; "ETHUSDT"]%string
            ["ETHUSDT"; "BTCUSDT"]%string _ _))).
  - reflexivity.
  - apply perm_swap.
Defined.



(** ** The cache: round trips, expiry sweeps, invariants *)

Section CacheLaws.

Context {V : Type}.
Implicit Types (c : cache_manager V) (key : string) (now expiry : Z).

Lemma cache_set_get c key (value : V) timeout t0 now :
  (now < t0 + seconds (effective_timeout c timeout))%Z ->
  cache_get (cache_set c key value timeout t0) key now
    = (Some value, cache_set c key value timeout t0).
Proof.
  intros Hlt.
  destruct (cache_set_lookup c key value timeout t0) as [Hc Ht].
  unfold cache_get. rewrite Hc, Ht.
  apply Z.ltb_lt in Hlt. now rewrite Hlt.
Qed.

(** X20: a value stored with [set] is what [get] returns for that key
    at any instant before the expiry, and such a [get] leaves the cache
    as it is; a second [set] for the key replaces the value and the
    expiry of the first.  The time to live is the [timeout] given, and
    the default one when none or 0 is given. *)
Theorem set_then_get_returns_value c key (value value' : V) timeout timeout'
    t0 t1 now :
  (now < t1 + seconds (effective_timeout c timeout'))%Z ->
  cache_get (cache_set c key value' timeout' t1) key now
    = (Some value', cache_set c key value' timeout' t1) /\
  fst (cache_get
         (cache_set (cache_set c key value timeout t0) key value' timeout' t1)
         key now) = Some value' /\
  effective_timeout c None = default_timeout c /\
  effective_timeout c (Some 0%Z) = default_timeout c.
Proof.
  intros Hlt. split; [now apply cache_set_get|].
  split; [|split; reflexivity].
  rewrite cache_set_get; [reflexivity|exact Hlt].
Qed.

Lemma elem_of_expired_keys c now key :
  key ∈ expired_keys c now <->
  exists expiry, timeouts c !! key = Some expiry /\ (expiry <= now)%Z.
Proof.
  unfold expired_keys. rewrite list_elem_of_fmap. split.
  - intros ([k e] & -> & Hin). apply elem_of_map_to_list in Hin.
    apply map_lookup_filter_Some in Hin. destruct Hin as [Hl He].
    now exists e.
  - intros (e & Hl & He). exists (key, e). split; [reflexivity|].
    apply elem_of_map_to_list. apply map_lookup_filter_Some. now split.
Qed.

Lemma expired_keys_nil c now :
  (forall key expiry, timeouts c !! key = Some expiry -> (now < expiry)%Z) ->
  expired_keys c now = [].
Proof.
  intros H. unfold expired_keys.
  replace (filter (fun kv => (kv.2 <= now)%Z) (timeouts c))
    with (∅ : gmap string Z); [now rewrite map_to_list_empty|].
  symmetry. apply map_empty. intros k.
  apply map_lookup_filter_None. right. intros e Hl. simpl.
  specialize (H k e Hl). lia.
Qed.

(** X21: [clear_expired] removes exactly the entries whose expiry has
    been reached: such a key is gone from both dictionaries, every other
    entry is kept with its value and its expiry, and right after the
    sweep no entry counts as expired. *)
Theorem clear_expired_removes_exactly_expired c now key :
  (forall expiry, timeouts c !! key = Some expiry -> (expiry <= now)%Z ->
     cache (cache_clear_expired c now) !! key = None /\
     timeouts (cache_clear_expired c now) !! key = None) /\
  (forall expiry, timeouts c !! key = Some expiry -> (now < expiry)%Z ->
     cache (cache_clear_expired c now) !! key = cache c !! key /\
     timeouts (cache_clear_expired c now) !! key = Some expiry) /\
  (timeouts c !! key = None ->
     cache (cache_clear_expired c now) !! key = cache c !! key) /\
  expired_keys (cache_clear_expired c now) now = [].
Proof.
  unfold cache_clear_expired. cbn [cache timeouts].
  split; [|split; [|split]].
  - intros e Hl He.
    assert (Hin : key ∈ expired_keys c now)
      by (apply elem_of_expired_keys; now exists e).
    split; now apply lookup_foldr_delete.
  - intros e Hl He.
    assert (Hin : key ∉ expired_keys c now).
    { rewrite elem_of_expired_keys. intros (e' & Hl' & He').
      rewrite Hl in Hl'. injection Hl' as <-. lia. }
    rewrite !lookup_foldr_delete_not_elem_of by assumption. now split.
  - intros Hl.
    assert (Hin : key ∉ expired_keys c now).
    { rewrite elem_of_expired_keys. intros (e' & Hl' & He'). congruence. }
    now rewrite lookup_foldr_delete_not_elem_of.
  - apply expired_keys_nil. cbn [timeouts]. intros k e Hl.
    apply lookup_foldr_delete_Some in Hl. destruct Hl as [Hnin Hl].
    destruct (Z_lt_le_dec now e) as [Hlt|Hle]; [assumption|].
    exfalso. apply Hnin. apply elem_of_expired_keys. now exists e.
Qed.

Lemma dom_foldr_delete {A} (m : gmap string A) (ks : list string) :
  dom (foldr delete m ks) = dom m ∖ list_to_set ks.
Proof.
  induction ks as [|k ks IH]; simpl.
  - now rewrite difference_empty_L.
  - rewrite dom_delete_L, IH, difference_difference_l_L.
    f_equal. apply union_comm_L.
Qed.

Lemma expired_le_timeouts c now :
  (List.length (expired_keys c now) <= size (timeouts c))%nat.
Proof.
  unfold expired_keys. rewrite length_fmap, length_map_to_list.
  apply map_subseteq_size, map_filter_subseteq.
Qed.

(** X22: the two dictionaries of a cache always hold the same keys: this
    is true of the empty cache and every operation ([get], [set], [clear],
    [clear_expired]) keeps it true; so the statistics never report more
    expired entries than entries. *)
Theorem cache_keeps_its_dictionaries_aligned c :
  cache_wf (mkCache (∅ : gmap string V) ∅ (default_timeout c)) /\
  (cache_wf c ->
   (forall key now, cache_wf (snd (cache_get c key now))) /\
   (forall key (value : V) timeout now,
      cache_wf (cache_set c key value timeout now)) /\
   cache_wf (cache_clear c) /\
   (forall now, cache_wf (cache_clear_expired c now)) /\
   (forall str_len now,
      (expired_entries (cache_get_stats str_len c now)
       <= total_entries (cache_get_stats str_len c now))%nat)).
Proof.
  unfold cache_wf. split; [simpl; now rewrite !dom_empty_L|].
  intros Hwf. split; [|split; [|split; [|split]]].
  - intros key now. unfold cache_get.
    destruct (cache c !! key); [|assumption].
    destruct (timeouts c !! key) as [e|]; [|assumption].
    destruct (now <? e)%Z; [assumption|]. simpl.
    now rewrite !dom_delete_L, Hwf.
  - intros key value timeout now. unfold cache_set. simpl.
    now rewrite !dom_insert_L, Hwf.
  - simpl. now rewrite !dom_empty_L.
  - intros now. unfold cache_clear_expired. simpl.
    now rewrite !dom_foldr_delete, Hwf.
  - intros str_len now. unfold cache_get_stats. simpl.
    pose proof (expired_le_timeouts c now) as H.
    rewrite <- (size_dom (timeouts c)), <- Hwf, size_dom in H. exact H.
Qed.

End CacheLaws.

Lemma set_then_get_returns_value_witness :
  let c0 := mkCache (∅ : gmap string nat) ∅ Config.CACHE_TIMEOUT in
  fst (cache_get (cache_set (cache_set c0 "k" 7%nat (Some 60%Z) 0)
                    "k" 8%nat None 1000000) "k" 300999999)
  = Some 8%nat.
Proof.
  intros c0.
  refine (proj1 (proj2 (set_then_get_returns_value c0 "k" 7%nat 8%nat
                          (Some 60%Z) None 0 1000000 300999999 _))).
  vm_compute. reflexivity.
Defined.

Lemma clear_expired_removes_exactly_expired_witness :
  let c0 := mkCache (∅ : gmap string nat) ∅ Config.CACHE_TIMEOUT in
  let c := cache_set (cache_set c0 "old" 1%nat (Some 60%Z) 0)
             "new" 2%nat (Some 600%Z) 0 in
  cache (cache_clear_expired c 60000000) !! "old" = None /\
  timeouts (cache_clear_expired c 60000000) !! "old" = None.
Proof.
  intros c0 c.
  refine (proj1 (clear_expired_removes_exactly_expired c 60000000 "old")
            60000000%Z _ _).
  - reflexivity.
  - lia.
Defined.

Lemma cache_keeps_its_dictionaries_aligned_witness :
  let c0 := mkCache (∅ : gmap string nat) ∅ Config.CACHE_TIMEOUT in
  let c := cache_set c0 "k" 7%nat (Some 60%Z) 0 in
  (expired_entries (cache_get_stats (fun _ => 1%nat) c 60000000)
   <= total_entries (cache_get_stats (fun _ => 1%nat) c 60000000))%nat.
Proof.
  intros c0 c.
  refine (proj2 (proj2 (proj2 (proj2
            (proj2 (cache_keeps_its_dictionaries_aligned c) _))))
            (fun _ => 1%nat) 60000000%Z).
  reflexivity.
Defined.

(** ** [cache_result] *)

Lemma cached_call_hit {R} (c : cache_manager (option R)) key timeout
    (func : option R) (r : R) expiry t_get t_set :
  cache c !! key = Some (Some r) ->
  timeouts c !! key = Some expiry ->
  (t_get < expiry)%Z ->
  cached_call c key timeout func t_get t_set = (Some r, c, false).
Proof.
  intros Hc Ht Hlt. unfold cached_call, cache_get. rewrite Hc, Ht.
  apply Z.ltb_lt in Hlt. now rewrite Hlt.
Qed.

Lemma cached_call_miss {R} (c : cache_manager (option R)) key timeout
    (func : option R) t_get t_set :
  (forall r, fst (cache_get c key t_get) <> Some (Some r)) ->
  cached_call c key timeout func t_get t_set
    = (func,
       cache_set (snd (cache_get c key t_get)) key func (Some timeout) t_set,
       true).
Proof.
  intros H. unfold cached_call.
  destruct (cache_get c key t_get) as [[[r|]|] c']; simpl in *;
    try reflexivity.
  now destruct (H r).
Qed.

Lemma cached_call_ran {R} (c : cache_manager (option R)) key timeout
    (func : option R) t_get t_set :
  snd (cached_call c key timeout func t_get t_set) = true ->
  cached_call c key timeout func t_get t_set
    = (func,
       cache_set (snd (cache_get c key t_get)) key func (Some timeout) t_set,
       true).
Proof.
  unfold cached_call.
  destruct (cache_get c key t_get) as [[[r|]|] c']; simpl;
    try reflexivity; discriminate.
Qed.

Lemma cached_call_after_store {R} (c : cache_manager (option R)) key timeout
    (v f2 : option R) t2 t3 t4 :
  timeout <> 0%Z ->
  (t3 < t2 + seconds timeout)%Z ->
  let c1 := cache_set c key v (Some timeout) t2 in
  match v with
  | Some r => cached_call c1 key timeout f2 t3 t4 = (Some r, c1, false)
  | None =>
      cached_call c1 key timeout f2 t3 t4
        = (f2, cache_set c1 key f2 (Some timeout) t4, true)
  end.
Proof.
  intros Hnz Hlt c1.
  assert (He : effective_timeout c (Some timeout) = timeout).
  { unfold effective_timeout. apply Z.eqb_neq in Hnz. now rewrite Hnz. }
  assert (Hget : cache_get c1 key t3 = (Some v, c1)).
  { unfold c1. rewrite cache_set_get; [reflexivity|]. now rewrite He. }
  unfold cached_call. rewrite Hget. now destruct v.
Qed.

(** X23: the wrapper that [cache_result] puts around a function.  A call
    that does not run the function returns a cached value that is not
    [None] and leaves the cache as it is.  A call that runs it returns
    its result; if that result is not [None], a second call before the
    timeout returns the same value without running the function, whatever
    the function would return now; if it is [None], the second call runs
    the function again: [None] is stored but never served. *)
Theorem cache_result_wrapper {R} (c : cache_manager (option R)) key timeout
    (f1 f2 : option R) t1 t2 t3 t4 :
  timeout <> 0%Z ->
  (t3 < t2 + seconds timeout)%Z ->
  let '(v1, c1, ran1) := cached_call c key timeout f1 t1 t2 in
  (ran1 = false -> c1 = c /\ exists r, v1 = Some r) /\
  (ran1 = true ->
   v1 = f1 /\
   match f1 with
   | Some r => cached_call c1 key timeout f2 t3 t4 = (Some r, c1, false)
   | None => exists c2, cached_call c1 key timeout f2 t3 t4 = (f2, c2, true)
   end).
Proof.
  intros Hnz Hlt.
  destruct (cached_call c key timeout f1 t1 t2) as [[v1 c1] ran1] eqn:E.
  split.
  - intros ->. unfold cached_call in E.
    destruct (cache_get c key t1) as [[[r|]|] c'] eqn:G;
      try (injection E as _ _ E; discriminate).
    injection E as <- <-. split; [|now exists r].
    unfold cache_get in G.
    destruct (cache c !! key); [|now injection G as _ <-].
    destruct (timeouts c !! key) as [e|]; [|now injection G as _ <-].
    destruct (t1 <? e)%Z; [now injection G as _ <-|discriminate].
  - intros ->.
    pose proof (cached_call_ran c key timeout f1 t1 t2) as H.
    rewrite E in H. specialize (H eq_refl). injection H as -> ->.
    split; [reflexivity|].
    pose proof (cached_call_after_store (snd (cache_get c key t1)) key
                  timeout f1 f2 t2 t3 t4 Hnz Hlt) as H.
    cbv zeta in H. destruct f1 as [r|]; [exact H|].
    eexists. exact H.
Qed.

Lemma cache_result_wrapper_witness :
  let c0 := mkCache (∅ : gmap string (option nat)) ∅ Config.CACHE_TIMEOUT in
  let '(v1, c1, ran1) := cached_call c0 "f:1" 300 (Some 7%nat) 0 1 in
  (ran1 = false -> c1 = c0 /\ exists r, v1 = Some r) /\
  (ran1 = true ->
   v1 = Some 7%nat /\
   cached_call c1 "f:1" 300 (Some 9%nat) 299999999 300000000
     = (Some 7%nat, c1, false)).
Proof.
  intros c0.
  refine (cache_result_wrapper c0 "f:1" 300 (Some 7%nat) (Some 9%nat)
            0 1 299999999 300000000 _ _).
  - discriminate.
  - vm_compute. reflexivity.
Defined.

(** X24: a failed instrument request is remembered: when nothing is
    cached, [get_all_futures_symbols] under its [cache_result(timeout=600)]
    wrapper returns the empty list for a failed request, and for the next
    600 seconds it answers with that empty list without making a request,
    even though a request would now succeed. *)
Theorem failed_listing_is_served_from_cache
    (c : cache_manager (option (list string))) key
    (data' : option response) t1 t2 t3 t4 :
  fst (cache_get c key t1) = None ->
  (t3 < t2 + seconds 600)%Z ->
  let '(v1, c1, ran1) := cached_get_all_futures_symbols c key None t1 t2 in
  v1 = Some [] /\ ran1 = true /\
  cached_get_all_futures_symbols c1 key data' t3 t4 = (Some [], c1, false).
Proof.
  intros Hnone Hlt. unfold cached_get_all_futures_symbols.
  rewrite cached_call_miss by (intros r; rewrite Hnone; discriminate).
  split; [reflexivity|]. split; [reflexivity|].
  exact (cached_call_after_store (snd (cache_get c key t1)) key 600
           (Some []) (Some (get_all_futures_symbols data')) t2 t3 t4
           ltac:(discriminate) Hlt).
Qed.

Lemma failed_listing_is_served_from_cache_witness :
  let c0 := mkCache (∅ : gmap string (option (list string))) ∅
              Config.CACHE_TIMEOUT in
  let '(v1, c1, ran1) :=
    cached_get_all_futures_symbols c0 "get_all_futures_symbols:0" None 0 1 in
  v1 = Some [] /\ ran1 = true /\
  cached_get_all_futures_symbols c1 "get_all_futures_symbols:0"
    (Some (mkResponse 0 [mkInstrument (Some "BTCUSDT"%string)]))
    599000000 599000001
  = (Some [], c1, false).
Proof.
  intros c0.
  refine (failed_listing_is_served_from_cache c0 "get_all_futures_symbols:0"
            (Some (mkResponse 0 [mkInstrument (Some "BTCUSDT"%string)]))
            0 1 599000000 599000001 _ _).
  - reflexivity.
  - vm_compute. reflexivity.
Defined.

(** ** PerformanceMonitor *)

Lemma record_metric_other (metrics : gmap string metric)
    (operation other : string) (t : Q) (success : bool) (now : Z) :
  other <> operation ->
  record_metric metrics operation t success now !! other = metrics !! other.
Proof. intros Hne. unfold record_metric. now apply lookup_insert_ne. Qed.

Lemma record_all_other (metrics : gmap string metric)
    (operation other : string) (es : list execution) :
  other <> operation ->
  record_all metrics operation es !! other = metrics !! other.
Proof.
  intros Hne. unfold record_all. revert metrics.
  induction es as [|e es IH]; intros metrics; [reflexivity|].
  cbn [fold_left]. rewrite IH. now apply record_metric_other.
Qed.

Lemma record_all_is_Some (metrics : gmap string metric) (operation : string)
    (es : list execution) :
  es <> [] -> is_Some (record_all metrics operation es !! operation).
Proof.
  unfold record_all. revert metrics.
  induction es as [|e es IH]; intros metrics Hne; [contradiction|].
  cbn [fold_left]. destruct es as [|e' es'].
  - cbn [fold_left]. unfold record_metric. rewrite lookup_insert_eq. eauto.
  - apply IH. discriminate.
Qed.

Lemma py_min_cases (a b : Q) :
  py_min a b <= a /\ py_min a b <= b.
Proof. split; [apply py_min_le_l|apply py_min_le_r]. Qed.

Lemma py_max_ge (a b : Q) : a <= py_max a b /\ b <= py_max a b.
Proof.
  unfold py_max. destruct (Qgtb b a) eqn:E;
    [apply Qgtb_gt in E|apply Qgtb_le in E]; split; lra.
Qed.

(** What a sequence of recordings does to the metric of its operation,
    whatever was recorded before. *)
Lemma record_all_metric (metrics : gmap string metric) (operation : string)
    (es : list execution) :
  let m0 := default default_metric (metrics !! operation) in
  let m := default default_metric
             (record_all metrics operation es !! operation) in
  m_count m = (m_count m0 + List.length es)%nat /\
  m_errors m
    = (m_errors m0
       + List.length (List.filter (fun e => negb (e_success e)) es))%nat /\
  m_total_time m == m_total_time m0 + qsum (List.map e_time es) /\
  Forall (fun e => e_time e <= m_max_time m) es /\
  m_max_time m0 <= m_max_time m /\
  match m_min_time m with
  | Some lo =>
      Forall (fun e => lo <= e_time e) es /\
      match m_min_time m0 with Some lo0 => lo <= lo0 | None => es <> [] end
  | None => es = [] /\ m_min_time m0 = None
  end.
Proof.
  unfold record_all. revert metrics.
  induction es as [|e es IH]; intros metrics; cbn zeta.
  - cbn [fold_left List.length List.filter List.map qsum fold_right].
    repeat split; try lia; try lra; try constructor.
    destruct (m_min_time (default default_metric (metrics !! operation)));
      [split; [constructor|lra]|now split].
  - cbn [fold_left].
    specialize (IH (record_metric metrics operation (e_time e)
                      (e_success e) (e_now e))).
    cbn zeta in IH.
    set (m0 := default default_metric (metrics !! operation)) in *.
    assert (E1 : default default_metric
                   (record_metric metrics operation (e_time e)
                      (e_success e) (e_now e) !! operation)
                 = {| m_count := S (m_count m0);
                      m_total_time := m_total_time m0 + e_time e;
                      m_min_time :=
                        match m_min_time m0 with
                        | None => Some (e_time e)
                        | Some x => Some (py_min x (e_time e))
                        end;
                      m_max_time := py_max (m_max_time m0) (e_time e);
                      m_errors := if e_success e then m_errors m0
                                  else S (m_errors m0);
                      m_last_execution := Some (e_now e) |}).
    { unfold record_metric. now rewrite lookup_insert_eq. }
    rewrite E1 in IH. cbn [m_count m_total_time m_min_time m_max_time m_errors]
      in IH.
    set (m := default default_metric
                (fold_left _ es _ !! operation)) in *.
    destruct IH as (Hc & He & Ht & Hmax & Hmax0 & Hmin).
    pose proof (py_max_ge (m_max_time m0) (e_time e)) as [Hx1 Hx2].
    split; [cbn [List.length]; lia|].
    split.
    { cbn [List.filter]. destruct (e_success e); cbn [negb List.length]; lia. }
    split.
    { cbn [List.map qsum fold_right]. fold (qsum (List.map e_time es)).
      rewrite Ht. ring. }
    split; [constructor; [lra|assumption]|].
    split; [lra|].
    destruct (m_min_time m) as [lo|].
    + destruct Hmin as [Hall Hlo0].
      destruct (m_min_time m0) as [lo0|].
      * pose proof (py_min_cases lo0 (e_time e)) as [Hy1 Hy2].
        split; [constructor; [lra|assumption]|lra].
      * split; [constructor; assumption|discriminate].
    + destruct Hmin as [_ Hcontra]. now destruct (m_min_time m0).
Qed.


(** X25: the counters of an operation add up: after any sequence of
    recordings for one operation on a monitor that had none for it, its
    count is the number of recordings, its errors the number of failed
    ones (so never more than the count), its total time their sum; and no
    other operation's metric has changed. *)
Theorem recorded_metrics_add_up (metrics : gmap string metric)
    (operation : string) (es : list execution) :
  metrics !! operation = None ->
  es <> [] ->
  exists m,
    record_all metrics operation es !! operation = Some m /\
    m_count m = List.length es /\
    m_errors m = List.length (List.filter (fun e => negb (e_success e)) es) /\
    (m_errors m <= m_count m)%nat /\
    m_total_time m == qsum (List.map e_time es) /\
    forall other, other <> operation ->
      record_all metrics operation es !! other = metrics !! other.
Proof.
  intros Hnew Hne.
  destruct (record_all_is_Some metrics operation es Hne) as [m Hm].
  pose proof (record_all_metric metrics operation es) as H.
  cbn zeta in H. rewrite Hm, Hnew in H.
  change (default default_metric (Some m)) with m in H.
  change (default default_metric None) with default_metric in H.
  cbn [default_metric m_count m_errors m_total_time m_min_time] in H.
  destruct H as (Hc & He & Ht & _).
  exists m. split; [exact Hm|]. split; [lia|]. split; [lia|].
  split.
  { rewrite Hc, He. cbn [Nat.add]. apply List.filter_length_le. }
  split; [rewrite Ht; ring|].
  intros other Ho. now apply record_all_other.
Qed.

Lemma recorded_metrics_add_up_witness :
  exists m,
    record_all ∅ "get_klines_data"
      [mkExecution 0.5 true 10; mkExecution 1.5 false 20] !! "get_klines_data"
      = Some m /\
    m_count m = 2%nat /\ m_errors m = 1%nat.
Proof.
  destruct (recorded_metrics_add_up ∅ "get_klines_data"
              [mkExecution 0.5 true 10; mkExecution 1.5 false 20])
    as (m & Hm & Hc & He & _).
  - reflexivity.
  - discriminate.
  - exists m. split; [exact Hm|]. split; [exact Hc|exact He].
Defined.



Lemma success_rate_range (m : metric) :
  (m_errors m <= m_count m)%nat -> 0 <= success_rate m <= 100.
Proof.
  intros Hle. unfold success_rate.
  destruct (0 <? m_count m)%nat eqn:E; [|lra].
  apply Nat.ltb_lt in E.
  set (n := inject_Z (Z.of_nat (m_count m))).
  set (k := inject_Z (Z.of_nat (m_count m) - Z.of_nat (m_errors m))).
  assert (Hn : 0 < n).
  { unfold n. change 0 with (inject_Z 0). rewrite <- Zlt_Qlt. lia. }
  assert (Hk0 : 0 <= k).
  { unfold k. change 0 with (inject_Z 0). rewrite <- Zle_Qle. lia. }
  assert (Hkn : k <= n) by (unfold k, n; rewrite <- Zle_Qle; lia).
  assert (H0 : 0 <= k / n) by (apply Qle_shift_div_l; lra).
  assert (H1 : k / n <= 1) by (apply Qle_shift_div_r; lra).
  split; lra.
Qed.

(** X27: the success rate that [get_metrics] reports for an operation
    lies between 0 and 100, whatever was recorded for it; it is 100 when
    no recorded execution failed and 0 when all of them failed; an
    operation that was never recorded does not appear in the report. *)
Theorem reported_success_rate (metrics : gmap string metric)
    (operation : string) (es : list execution) :
  metrics !! operation = None ->
  (get_metrics metrics !! operation = None) /\
  (es <> [] ->
   exists rep,
     get_metrics (record_all metrics operation es) !! operation = Some rep /\
     rep_count rep = List.length es /\
     0 <= rep_success_rate rep <= 100 /\
     (forallb e_success es = true -> rep_success_rate rep == 100) /\
     (forallb (fun e => negb (e_success e)) es = true ->
      rep_success_rate rep == 0)).
Proof.
  intros Hnew. split.
  { unfold get_metrics. now rewrite lookup_fmap, Hnew. }
  intros Hne.
  destruct (record_all_is_Some metrics operation es Hne) as [m Hm].
  pose proof (record_all_metric metrics operation es) as H.
  cbn zeta in H. rewrite Hm, Hnew in H.
  change (default default_metric (Some m)) with m in H.
  change (default default_metric None) with default_metric in H.
  cbn [default_metric m_count m_errors m_total_time m_min_time] in H.
  destruct H as (Hc & He & _). cbn [Nat.add] in Hc, He.
  assert (Hle : (m_errors m <= m_count m)%nat)
    by (rewrite Hc, He; apply List.filter_length_le).
  assert (Hpos : (0 < List.length es)%nat)
    by (destruct es; [contradiction|simpl; lia]).
  exists (report_of m). split.
  { unfold get_metrics. now rewrite lookup_fmap, Hm. }
  split; [exact Hc|]. cbn [report_of rep_success_rate].
  assert (Hn : 0 < inject_Z (Z.of_nat (m_count m))).
  { change 0 with (inject_Z 0). rewrite <- Zlt_Qlt. lia. }
  assert (Hltb : (0 <? m_count m)%nat = true) by (apply Nat.ltb_lt; lia).
  split; [|split].
  - apply (py_round_range 0 100). now apply success_rate_range.
  - intros Hall.
    assert (E0 : m_errors m = 0%nat).
    { rewrite He. clear -Hall. induction es as [|e es IH]; [reflexivity|].
      cbn [forallb] in Hall. apply andb_prop in Hall. destruct Hall as [H1 H2].
      cbn [List.filter]. rewrite H1. cbn [negb]. now apply IH. }
    assert (Hr : success_rate m == 100).
    { unfold success_rate. rewrite Hltb, E0. cbn [Z.of_nat].
      rewrite Z.sub_0_r. field. lra. }
    pose proof (py_round_range 100 100 (success_rate m) 2) as [H1 H2].
    { change (inject_Z 100) with 100. rewrite Hr. lra. }
    change (inject_Z 100) with 100 in H1, H2. lra.
  - intros Hall.
    assert (E0 : m_errors m = m_count m).
    { rewrite He, Hc. clear -Hall. induction es as [|e es IH]; [reflexivity|].
      cbn [forallb] in Hall. apply andb_prop in Hall. destruct Hall as [H1 H2].
      cbn [List.filter]. rewrite H1. cbn [List.length]. f_equal. now apply IH. }
    assert (Hr : success_rate m == 0).
    { unfold success_rate. rewrite Hltb, E0, Z.sub_diag.
      change (inject_Z 0) with 0. field. lra. }
    pose proof (py_round_range 0 0 (success_rate m) 2) as [H1 H2].
    { change (inject_Z 0) with 0. rewrite Hr. lra. }
    change (inject_Z 0) with 0 in H1, H2. lra.
Qed.

Lemma reported_success_rate_witness :
  let es := [mkExecution 0.5 true 10; mkExecution 1.5 false 20] in
  exists rep,
    get_metrics (record_all ∅ "get_current_price" es) !! "get_current_price"
      = Some rep /\
    rep_count rep = 2%nat /\
    0 <= rep_success_rate rep <= 100 /\
    (forallb e_success es = true -> rep_success_rate rep == 100) /\
    (forallb (fun e => negb (e_success e)) es = true ->
     rep_success_rate rep == 0).
Proof.
  intros es.
  refine (proj2 (reported_success_rate ∅ "get_current_price" es _) _).
  - reflexivity.
  - discriminate.
Defined.

(** ** SystemHealthMonitor *)

Lemma deque_append_length {A} (maxlen : nat) (d : list A) (x : A) :
  List.length (deque_append maxlen d x)
    = Nat.min maxlen (List.length d + 1).
Proof.
  unfold deque_append. rewrite length_drop, List.length_app. simpl. lia.
Qed.

Lemma deque_append_last {A} (maxlen : nat) (d : list A) (x : A) :
  (0 < maxlen)%nat -> last (deque_append maxlen d x) = Some x.
Proof.
  intros Hpos. unfold deque_append.
  rewrite List.length_app. simpl.
  rewrite drop_app_le by lia. apply last_snoc.
Qed.

Lemma deque_append_full {A} (maxlen : nat) (a : A) (d : list A) (x : A) :
  List.length (a :: d) = maxlen ->
  deque_append maxlen (a :: d) x = d ++ [x].
Proof.
  intros Hlen. unfold deque_append.
  rewrite List.length_app, Hlen. simpl List.length.
  replace (maxlen + 1 - maxlen)%nat with 1%nat by lia. reflexivity.
Qed.

Lemma run_check_alerts (h : health_monitor) (k : health_check) :
  alerts (run_check h k) = alerts h \/
  exists a, alerts (run_check h k) = deque_append ALERTS_MAXLEN (alerts h) a.
Proof.
  destruct k as [[syms|] t now|[|] t now]; simpl.
  - destruct ((0 <? List.length syms)%nat && Qltb t 10); simpl; eauto.
  - eauto.
  - eauto.
  - destruct (Qltb t 5); simpl; eauto.
Qed.

Lemma run_checks_alerts_length (ks : list health_check) (h : health_monitor) :
  (List.length (alerts h) <= ALERTS_MAXLEN)%nat ->
  (List.length (alerts (fold_left run_check ks h))
   <= Nat.min ALERTS_MAXLEN (List.length (alerts h) + List.length ks))%nat.
Proof.
  revert h. induction ks as [|k ks IH]; intros h Hh.
  - cbn [fold_left List.length]. lia.
  - cbn [fold_left List.length].
    assert (H1 : (List.length (alerts (run_check h k))
                  <= Nat.min ALERTS_MAXLEN (List.length (alerts h) + 1))%nat).
    { destruct (run_check_alerts h k) as [->|(a & ->)]; [lia|].
      rewrite deque_append_length. lia. }
    specialize (IH (run_check h k) ltac:(lia)). lia.
Qed.

(** X28: the alert queue is bounded: after any sequence of API and
    database checks on a new monitor it holds at most 100 alerts, and at
    most one per check made; and when the queue is full, a further alert
    pushes out the oldest one. *)
Theorem alert_queue_is_bounded (ks : list health_check) (now : Z) :
  (List.length (alerts (fold_left run_check ks (new_health_monitor now)))
   <= 100)%nat /\
  (List.length (alerts (fold_left run_check ks (new_health_monitor now)))
   <= List.length ks)%nat /\
  (forall h a d t now',
     alerts h = a :: d -> List.length (a :: d) = 100%nat ->
     alerts (snd (check_api_health h None t now'))
       = d ++ [mkAlert now' API_ERROR]).
Proof.
  pose proof (run_checks_alerts_length ks (new_health_monitor now)) as H.
  simpl alerts in H. simpl List.length in H. unfold ALERTS_MAXLEN in H.
  specialize (H ltac:(lia)).
  split; [lia|]. split; [lia|].
  intros h a d t now' Ha Hlen. simpl. rewrite Ha.
  now apply deque_append_full.
Qed.

Lemma alert_queue_is_bounded_witness :
  let h := mkHealth true true true 0 (repeat (mkAlert 0 DB_ERROR) 100) in
  alerts (snd (check_api_health h None 1 5))
    = repeat (mkAlert 0 DB_ERROR) 99 ++ [mkAlert 5 API_ERROR].
Proof.
  intros h.
  refine (proj2 (proj2 (alert_queue_is_bounded [] 0)) h (mkAlert 0 DB_ERROR)
            (repeat (mkAlert 0 DB_ERROR) 99) 1 5%Z _ _).
  - reflexivity.
  - reflexivity.
Defined.

(** X29: what a health check decides and records.  The API check passes
    exactly when the symbol list came back non-empty in under 10 seconds,
    the database check exactly when the statistics came back in under 5
    seconds.  A check that passes sets its own flag and adds no alert; a
    check that does not pass clears its flag, so that [overall_health] is
    false, and puts an alert stamped with the current instant at the end
    of the queue.  Neither check touches the other's flag, and an API
    check that raised leaves [last_check] as it was. *)
Theorem health_check_outcome (h : health_monitor) (t : Q) (now : Z) :
  (forall symbols,
     let ok := fst (check_api_health h symbols t now) in
     let h' := snd (check_api_health h symbols t now) in
     (ok = true <->
      exists syms, symbols = Some syms /\ syms <> [] /\ t < 10) /\
     api_connectivity h' = ok /\
     database_connectivity h' = database_connectivity h /\
     (ok = true -> alerts h' = alerts h) /\
     (ok = false ->
      overall_health h' = false /\
      last (alerts h')
        = Some (mkAlert now (match symbols with
                           | Some _ => API_HEALTH
                           | None => API_ERROR
                           end))) /\
     (symbols = None -> last_check h' = last_check h)) /\
  (forall raised,
     let ok := fst (check_database_health h raised t now) in
     let h' := snd (check_database_health h raised t now) in
     (ok = true <-> raised = false /\ t < 5) /\
     database_connectivity h' = ok /\
     api_connectivity h' = api_connectivity h /\
     (ok = true -> alerts h' = alerts h) /\
     (ok = false ->
      overall_health h' = false /\
      last (alerts h')
        = Some (mkAlert now (if raised then DB_ERROR else DB_HEALTH)))).
Proof.
  assert (Hpos : (0 < ALERTS_MAXLEN)%nat) by (unfold ALERTS_MAXLEN; lia).
  split.
  - intros [syms|]; cbn zeta; unfold check_api_health.
    + destruct (0 <? List.length syms)%nat eqn:E1;
        [apply Nat.ltb_lt in E1|apply Nat.ltb_ge in E1].
      * destruct (Qltb t 10) eqn:E2;
          [apply Qltb_lt in E2|apply Qltb_ge in E2]; cbn.
        -- repeat split; try discriminate; try reflexivity.
           exists syms. repeat split; [|assumption].
           intros ->. simpl in E1. lia.
        -- repeat split; try discriminate; try reflexivity.
           ++ intros (s & [= <-] & _ & Hlt). lra.
           ++ now apply deque_append_last.
      * cbn. repeat split; try discriminate; try reflexivity.
        -- intros (s & [= <-] & Hne & _).
           destruct syms; [contradiction|simpl in E1; lia].
        -- now apply deque_append_last.
    + cbn. repeat split; try discriminate; try reflexivity.
      * intros (s & Hs & _). discriminate.
      * now apply deque_append_last.
  - intros [|]; cbn zeta; unfold check_database_health.
    + cbn. repeat split; try discriminate; try reflexivity.
      * intros [Hr _]. discriminate.
      * unfold overall_health. simpl. now rewrite andb_false_r.
      * now apply deque_append_last.
    + destruct (Qltb t 5) eqn:E2;
        [apply Qltb_lt in E2|apply Qltb_ge in E2]; cbn.
      * repeat split; try discriminate; try reflexivity. assumption.
      * repeat split; try discriminate; try reflexivity.
        -- intros [_ Hlt]. lra.
        -- unfold overall_health. simpl. now rewrite andb_false_r.
        -- now apply deque_append_last.
Qed.

Lemma health_check_outcome_witness :
  let h := new_health_monitor 0 in
  overall_health (snd (check_api_health h (Some []) 1 5)) = false /\
  last (alerts (snd (check_api_health h (Some []) 1 5)))
    = Some (mkAlert 5 API_HEALTH).
Proof.
  intros h.
  refine (proj1 (proj2 (proj2 (proj2 (proj2
            (proj1 (health_check_outcome h 1 5) (Some []))))))
            _).
  reflexivity.
Defined.

Lemma run_check_analysis_performance (h : health_monitor) (k : health_check) :
  analysis_performance (run_check h k) = analysis_performance h.
Proof.
  destruct k as [[syms|] t now|[|] t now]; reflexivity.
Qed.

Lemma run_checks_analysis_performance (ks : list health_check)
    (h : health_monitor) :
  analysis_performance (fold_left run_check ks h) = analysis_performance h.
Proof.
  revert h. induction ks as [|k ks IH]; intros h; [reflexivity|].
  cbn [fold_left]. rewrite IH. apply run_check_analysis_performance.
Qed.

(** X30: the health endpoint is consistent: whatever checks the monitor
    has been through since it was created, the [overall_health] that
    [check_system_health] reports is true exactly when both of its own
    checks, the API one and the database one, have just passed. *)
Theorem health_endpoint_is_consistent (ks : list health_check) (t0 : Z)
    (symbols : option (list string)) (api_time : Q) (api_now : Z)
    (raised : bool) (db_time : Q) (db_now : Z) :
  let h := fold_left run_check ks (new_health_monitor t0) in
  let '(api_healthy, database_healthy, overall, _) :=
    check_system_health h symbols api_time api_now raised db_time db_now in
  overall = api_healthy && database_healthy.
Proof.
  intros h.
  assert (Ha : analysis_performance h = true)
    by (unfold h; now rewrite run_checks_analysis_performance).
  clearbody h. destruct h as [api db perf lc al].
  cbn [analysis_performance] in Ha. subst perf.
  unfold check_system_health, check_api_health, check_database_health,
    overall_health.
  destruct symbols as [syms|]; destruct raised;
    cbn [api_connectivity database_connectivity analysis_performance
         last_check alerts];
    repeat match goal with
           | |- context [Qltb ?a ?b] => destruct (Qltb a b)
           | |- context [(0 <? ?n)%nat] => destruct (0 <? n)%nat
           end;
    reflexivity.
Qed.
